(** * santridigital: the highlighter of [Editor.tsx] and the history,
    search and import handlers of [App.tsx]

    JavaScript strings are modelled as [string]: sequences of code units
    below 256.  Regular expressions are interpreted by a backtracking
    matcher that follows the ECMAScript matching rules (ordered
    alternation, greedy and lazy quantifiers, lookahead, word boundaries). *)

From Stdlib Require Import String Ascii List ZArith Lia Bool Arith Sorted.
Import ListNotations.
Local Open Scope string_scope.
Local Open Scope nat_scope.

(** ** Code units and strings *)

Module Js.

Definition code (c : ascii) : nat := nat_of_ascii c.

Definition between (lo hi : nat) (c : ascii) : bool :=
  (lo <=? code c) && (code c <=? hi).

Definition isDigit : ascii -> bool := between 48 57.
Definition isUpper : ascii -> bool := between 65 90.
Definition isLower : ascii -> bool := between 97 122.

(** [\w] *)
Definition isWord (c : ascii) : bool :=
  isDigit c || isUpper c || isLower c || (code c =? 95).

(** [\s] and the characters removed by [trim]: tab, line feed, vertical
    tab, form feed, carriage return, space and no-break space. *)
Definition isSpace (c : ascii) : bool :=
  between 9 13 c || (code c =? 32) || (code c =? 160).

(** [.] matches everything but a line terminator. *)
Definition isLineTerminator (c : ascii) : bool :=
  (code c =? 10) || (code c =? 13).

Definition oneOf (set : string) (c : ascii) : bool :=
  existsb (Ascii.eqb c) (list_ascii_of_string set).

Definition dquote : ascii := "034"%char.
Definition newline : ascii := "010"%char.

Definition str (c : ascii) : string := String c EmptyString.

Fixpoint drop (n : nat) (s : string) : string :=
  match n, s with
  | S n', String _ s' => drop n' s'
  | _, _ => s
  end.

Definition startsWith (p s : string) : bool := String.prefix p s.

(** [s.includes(t)] *)
Fixpoint includes (t s : string) : bool :=
  String.prefix t s ||
  match s with
  | EmptyString => false
  | String _ s' => includes t s'
  end.

Definition isEmpty (s : string) : bool :=
  match s with EmptyString => true | _ => false end.

(** [toLowerCase] on code units below 256: A-Z and the Latin-1 capitals
    (0xC0-0xDE without the multiplication sign 0xD7) move up by 32. *)
Definition lowerChar (c : ascii) : ascii :=
  if isUpper c || (between 192 222 c && negb (code c =? 215))
  then ascii_of_nat (code c + 32) else c.

Fixpoint toLowerCase (s : string) : string :=
  match s with
  | EmptyString => EmptyString
  | String c s' => String (lowerChar c) (toLowerCase s')
  end.

Fixpoint trimStart (s : string) : string :=
  match s with
  | String c s' => if isSpace c then trimStart s' else s
  | EmptyString => EmptyString
  end.

Fixpoint trimEnd (s : string) : string :=
  match s with
  | EmptyString => EmptyString
  | String c s' =>
      match trimEnd s' with
      | EmptyString => if isSpace c then EmptyString else str c
      | t => String c t
      end
  end.

Definition trim (s : string) : string := trimEnd (trimStart s).

(** *** Regular expressions *)

Inductive regex : Type :=
| Eps
| Chr (p : ascii -> bool)
| Cat (r1 r2 : regex)
| Alt (r1 r2 : regex)
| Star (greedy : bool) (r : regex)
| Look (r : regex)
| WordB
| Bol.

Definition isWordAt (c : option ascii) : bool :=
  match c with Some a => isWord a | None => false end.

Definition first (s : string) : option ascii :=
  match s with String c _ => Some c | EmptyString => None end.

Definition Cont : Type := option ascii -> string -> option string.

(** The loop of a quantifier [r*] (greedy) or [r*?] (lazy) over the matcher
    [m] of its body: [n] bounds the iterations left.  An iteration that
    consumes nothing is rejected, as in ECMAScript's RepeatMatcher. *)
Fixpoint starLoop (m : Cont -> Cont) (greedy : bool) (k : Cont) (n : nat)
  (prev : option ascii) (s : string) {struct n} : option string :=
  match n with
  | O => k prev s
  | S n' =>
      let iterate (p' : option ascii) (s' : string) :=
        if String.length s' <? String.length s
        then starLoop m greedy k n' p' s' else None in
      if greedy then
        match m iterate prev s with
        | Some x => Some x
        | None => k prev s
        end
      else
        match k prev s with
        | Some x => Some x
        | None => m iterate prev s
        end
  end.

(** The matcher in continuation-passing style: [prev] is the code unit
    before the current position (for [\b] and [^]), [s] the input from the
    current position on, and the result the input left after the match. *)
Fixpoint rmatch (r : regex) (k : Cont) (prev : option ascii) (s : string)
  {struct r} : option string :=
  match r with
  | Eps => k prev s
  | Chr p =>
      match s with
      | String c s' => if p c then k (Some c) s' else None
      | EmptyString => None
      end
  | Cat r1 r2 => rmatch r1 (rmatch r2 k) prev s
  | Alt r1 r2 =>
      match rmatch r1 k prev s with
      | Some x => Some x
      | None => rmatch r2 k prev s
      end
  | Star greedy r1 => starLoop (rmatch r1) greedy k (String.length s) prev s
  | Look r1 =>
      match rmatch r1 (fun _ s' => Some s') prev s with
      | Some _ => k prev s
      | None => None
      end
  | WordB =>
      if xorb (isWordAt prev) (isWordAt (first s)) then k prev s else None
  | Bol =>
      match prev with
      | None => k prev s
      | Some _ => None
      end
  end.

(** Length of the match of [r] at the current position, if any. *)
Definition exec (r : regex) (prev : option ascii) (s : string) : option nat :=
  match rmatch r (fun _ s' => Some s') prev s with
  | Some s' => Some (String.length s - String.length s')
  | None => None
  end.

(** [s.replace(r, f)] for a global [r] and a callback [f] of the match:
    the matches are found left to right, each search resuming where the
    previous match ended (one code unit further after an empty match), and
    the text between matches is copied.  [skip] counts the code units of
    the current match still to pass over. *)
Fixpoint replaceFrom (r : regex) (f : string -> string) (skip : nat)
  (prev : option ascii) (s : string) {struct s} : string :=
  match skip with
  | S k =>
      match s with
      | String c s' => replaceFrom r f k (Some c) s'
      | EmptyString => EmptyString
      end
  | O =>
      match exec r prev s with
      | Some n =>
          f (substring 0 n s) ++
          match s with
          | EmptyString => EmptyString
          | String c s' =>
              match n with
              | O => String c (replaceFrom r f 0 (Some c) s')
              | S n' => replaceFrom r f n' (Some c) s'
              end
          end
      | None =>
          match s with
          | EmptyString => EmptyString
          | String c s' => String c (replaceFrom r f 0 (Some c) s')
          end
      end
  end.

Definition replace (r : regex) (f : string -> string) (s : string) : string :=
  replaceFrom r f 0 None s.

(** Regular expression syntax. *)
Definition chr (c : ascii) : regex := Chr (Ascii.eqb c).
Definition any : regex := Chr (fun _ => true).
Definition dot : regex := Chr (fun c => negb (isLineTerminator c)).

Fixpoint lit (s : string) : regex :=
  match s with
  | EmptyString => Eps
  | String c EmptyString => chr c
  | String c s' => Cat (chr c) (lit s')
  end.

Definition plus (r : regex) : regex := Cat r (Star true r).
Definition plusLazy (r : regex) : regex := Cat r (Star false r).
Definition opt (r : regex) : regex := Alt r Eps.

Fixpoint alts (rs : list regex) : regex :=
  match rs with
  | [] => Chr (fun _ => false)
  | [r] => r
  | r :: rs' => Alt r (alts rs')
  end.

(** Every code unit. *)
Definition allAscii : list ascii := map ascii_of_nat (seq 0 256).

(** [needs P r]: no match of [r] is possible without a code unit of the
    class [P] in the input, either consumed or looked at. *)
Fixpoint needs (P : ascii -> bool) (r : regex) : bool :=
  match r with
  | Eps | WordB | Bol | Star _ _ => false
  | Chr p => forallb (fun c => implb (p c) (P c)) allAscii
  | Cat r1 r2 => needs P r1 || needs P r2
  | Alt r1 r2 => needs P r1 && needs P r2
  | Look r1 => needs P r1
  end.

Fixpoint allChars (p : ascii -> bool) (s : string) : bool :=
  match s with
  | EmptyString => true
  | String c s' => p c && allChars p s'
  end.

(** [clean P s]: no code unit of [s] is in the class [P]. *)
Definition clean (P : ascii -> bool) (s : string) : Prop :=
  allChars (fun c => negb (P c)) s = true.

End Js.

(** ** [components/Editor.tsx]: the highlighter *)

Module Editor.
Import Js.

Inductive Language : Type := html | css | javascript.

Inductive TokenClass : Type :=
| comment | punctuation | tag | attributeName | attributeValue
| string_ | keyword | selector | propertyName | cssValue | number
| functionName | variable | operator.

(** Basic syntax highlighting colors (Tailwind classes). *)
Definition tokenColors (t : TokenClass) : string :=
  match t with
  | comment => "text-green-400"
  | punctuation => "text-slate-400"
  | tag => "text-red-400"
  | attributeName => "text-yellow-400"
  | attributeValue => "text-lime-300"
  | string_ => "text-lime-300"
  | keyword => "text-purple-400"
  | selector => "text-orange-400"
  | propertyName => "text-sky-300"
  | cssValue => "text-amber-300"
  | number => "text-teal-300"
  | functionName => "text-blue-400"
  | variable => "text-indigo-300"
  | operator => "text-pink-400"
  end.

(** The callback of [escapeHtml]. *)
Definition escapeChar (m : string) : string :=
  if String.eqb m "&" then "&amp;"
  else if String.eqb m "<" then "&lt;"
  else if String.eqb m ">" then "&gt;"
  else if String.eqb m (str dquote) then "&quot;"
  else if String.eqb m "'" then "&#39;"
  else m.

Definition isHtmlSpecial (c : ascii) : bool :=
  oneOf "&<>'" c || Ascii.eqb c dquote.

(** [text.replace(...)] over the class of the five special characters:
    ampersand, less-than, greater-than, double quote and apostrophe. *)
Definition escapeHtml (text : string) : string :=
  replace (Chr isHtmlSpecial) escapeChar text.

(** [[\w\d-]] *)
Definition nameChar (c : ascii) : bool := isWord c || isDigit c || oneOf "-" c.

(** [/(\/\/.*|\/\*[\s\S]*?\*\/|<!--[\s\S]*?-->)/g] *)
Definition commentRegex : regex :=
  alts [ Cat (lit "//") (Star true dot);
         Cat (lit "/*") (Cat (Star false any) (lit "*/"));
         Cat (lit "<!--") (Cat (Star false any) (lit "-->")) ].

(** The string rule: an apostrophe, a double quote or a backtick, a lazy
    run of [.] and the same delimiter again. *)
Definition stringRegex : regex :=
  alts [ Cat (chr "'") (Cat (Star false dot) (chr "'"));
         Cat (chr dquote) (Cat (Star false dot) (chr dquote));
         Cat (chr "`") (Cat (Star false dot) (chr "`")) ].

(** [/(&lt;\/?[\w\d-]+)/g] *)
Definition tagOpenRegex : regex :=
  Cat (lit "&lt;") (Cat (opt (chr "/")) (plus (Chr nameChar))).

(** [/([\w\d-]+)(?=\s*=&quot;)/g] *)
Definition attributeNameRegex : regex :=
  Cat (plus (Chr nameChar))
      (Look (Cat (Star true (Chr isSpace)) (lit "=&quot;"))).

(** [/(&gt;)/g] *)
Definition tagCloseRegex : regex := lit "&gt;".

(** The character class of the selector rule: word characters, digits,
    white space and the characters * . # [ ] : - > + ~ and both quotes. *)
Definition selectorChar (c : ascii) : bool :=
  isWord c || isDigit c || oneOf "*.#[]:'->+~" c || Ascii.eqb c dquote
  || isSpace c.

(** The selector rule: the start of the input or one of white space,
    braces and semicolon, then a lazy non-empty run of selector
    characters, followed (lookahead) by optional white space and an
    opening brace. *)
Definition selectorRegex : regex :=
  Cat (Alt Bol (Chr (fun c => isSpace c || oneOf "{};" c)))
      (Cat (plusLazy (Chr selectorChar))
           (Look (Cat (Star true (Chr isSpace)) (chr "{")))).

(** [/([\w\d-]+)\s*:/g] *)
Definition propertyNameRegex : regex :=
  Cat (plus (Chr nameChar)) (Cat (Star true (Chr isSpace)) (chr ":")).

(** [/:\s*([^;\}]+)/g] *)
Definition cssValueRegex : regex :=
  Cat (chr ":")
      (Cat (Star true (Chr isSpace)) (plus (Chr (fun c => negb (oneOf ";}" c))))).

(** [/([{}();,])/g] *)
Definition cssPunctuationRegex : regex := Chr (oneOf "{}();,").

Definition keywords : list string :=
  [ "const"; "let"; "var"; "function"; "return"; "if"; "else"; "for";
    "while"; "switch"; "case"; "break"; "continue"; "new"; "this";
    "import"; "export"; "default"; "class"; "extends"; "super"; "try";
    "catch"; "finally"; "typeof"; "instanceof"; "delete"; "void"; "async";
    "await"; "true"; "false"; "null"; "undefined" ].

(** [/\b(const|let|...|undefined)\b/g] *)
Definition keywordRegex : regex :=
  Cat WordB (Cat (alts (map lit keywords)) WordB).

(** The constant rule: between word boundaries, a capital or underscore
    and a run of capitals, digits and underscores. *)
Definition constantRegex : regex :=
  Cat WordB
      (Cat (Chr (fun c => isUpper c || oneOf "_" c))
           (Cat (Star true (Chr (fun c => isUpper c || isDigit c || oneOf "_" c)))
                WordB)).

(** The function call rule: a word boundary, a letter or underscore, a
    run of word characters and one of white space, followed (lookahead)
    by an opening parenthesis. *)
Definition functionCallRegex : regex :=
  Cat WordB
      (Cat (Chr (fun c => isLower c || isUpper c || oneOf "_" c))
           (Cat (Star true (Chr isWord))
                (Cat (Star true (Chr isSpace)) (Look (chr "("))))).

(** [/\b\d+(\.\d+)?\b/g] *)
Definition numberRegex : regex :=
  Cat WordB
      (Cat (plus (Chr isDigit))
           (Cat (opt (Cat (chr ".") (plus (Chr isDigit)))) WordB)).

(** [/([{}();,.:?])/g] *)
Definition jsPunctuationRegex : regex := Chr (oneOf "{}();,.:?").

(** [/([+\-*/%=&|<>!^~])/g] *)
Definition operatorRegex : regex := Chr (oneOf "+-*/%=&|<>!^~").

(** The rule list is built as in the source: the common rules first, then
    those of the language. *)
Definition rules (language : Language) : list (regex * TokenClass) :=
  [ (commentRegex, comment); (stringRegex, string_) ] ++
  match language with
  | html =>
      [ (tagOpenRegex, tag); (attributeNameRegex, attributeName);
        (tagCloseRegex, tag) ]
  | css =>
      [ (selectorRegex, selector); (propertyNameRegex, propertyName);
        (cssValueRegex, cssValue); (cssPunctuationRegex, punctuation) ]
  | javascript =>
      [ (keywordRegex, keyword); (constantRegex, variable);
        (functionCallRegex, functionName); (numberRegex, number);
        (jsPunctuationRegex, punctuation); (operatorRegex, operator) ]
  end.

(** The callback of the rule loop: a match that starts with a span-opening
    marker or contains a span-closing marker is left alone. *)
Definition span (tokenClass : TokenClass) (m : string) : string :=
  "<span class=" ++ str dquote ++ tokenColors tokenClass ++ str dquote ++ ">"
  ++ m ++ "</span>".

Definition wrapMatch (tokenClass : TokenClass) (m : string) : string :=
  if startsWith "<span" m || includes "</span>" m then m
  else span tokenClass m.

Definition applyRule (highlightedText : string) (rule : regex * TokenClass)
  : string :=
  replace (fst rule) (wrapMatch (snd rule)) highlightedText.

(** The replacement of the last step: a line feed becomes a line-break
    marker. *)
Definition lineBreak (m : string) : string := "<br>".

Definition applySyntaxHighlighting (text : string) (language : Language)
  : string :=
  if isEmpty text then ""
  else
    let highlightedText := fold_left applyRule (rules language) (escapeHtml text) in
    replace (chr newline) lineBreak highlightedText.

(** *** Reading the text back

    The two steps that section 8 of the specification applies to the
    highlighter's output: every span tag is removed (an opening tag runs
    from its marker to the next closing angle bracket), and every
    line-break marker becomes a line feed again. *)

Fixpoint indexOfChar (c : ascii) (s : string) : option nat :=
  match s with
  | EmptyString => None
  | String d s' => if Ascii.eqb d c then Some 0 else option_map S (indexOfChar c s')
  end.

Fixpoint stripFrom (skip : nat) (s : string) : string :=
  match s with
  | EmptyString => EmptyString
  | String c s' =>
      match skip with
      | S k => stripFrom k s'
      | O =>
          if String.prefix "</span>" s then stripFrom 6 s'
          else if String.prefix "<span" s then
            match indexOfChar ">" s' with
            | Some k => stripFrom (S k) s'
            | None => String c (stripFrom 0 s')
            end
          else String c (stripFrom 0 s')
      end
  end.

Definition stripSpanTags (markup : string) : string := stripFrom 0 markup.

Fixpoint unbreakFrom (skip : nat) (s : string) : string :=
  match s with
  | EmptyString => EmptyString
  | String c s' =>
      match skip with
      | S k => unbreakFrom k s'
      | O =>
          if String.prefix "<br>" s then String newline (unbreakFrom 3 s')
          else String c (unbreakFrom 0 s')
      end
  end.

Definition breaksToNewlines (markup : string) : string := unbreakFrom 0 markup.

Definition readBack (markup : string) : string :=
  breaksToNewlines (stripSpanTags markup).

(** *** Span tags and well-formed markup

    The tags that the rule loop writes, and the markup that is made of
    such tags, of line-break markers and of code units other than the
    less-than sign. *)

Definition tokenClasses : list TokenClass :=
  [ comment; punctuation; tag; attributeName; attributeValue; string_;
    keyword; selector; propertyName; cssValue; number; functionName;
    variable; operator ].

Definition openTag (tokenClass : TokenClass) : string :=
  "<span class=" ++ str dquote ++ tokenColors tokenClass ++ str dquote ++ ">".

Definition closeTag : string := "</span>".

Definition spanTags : list string := closeTag :: map openTag tokenClasses.

(** [Tagged s s']: [s'] is [s] with span tags put in one after another,
    each at any place of the text reached so far, also inside a tag that
    was put in before. *)
Inductive Tagged : string -> string -> Prop :=
| tagged_same (s : string) : Tagged s s
| tagged_insert (s x y g : string) :
    Tagged s (x ++ y) -> In g spanTags -> Tagged s (x ++ g ++ y).

(** The span tag that the markup starts with, if it starts with one. *)
Definition tagPrefix (s : string) : option string :=
  find (fun g => String.prefix g s) spanTags.

(** The text of well-formed markup: span tags give nothing, a line-break
    marker gives a line feed and every other code unit gives itself; a
    less-than sign that starts neither a span tag nor a line-break marker
    is not well formed.  [skip] counts the code units of the current tag
    or marker still to pass over. *)
Fixpoint textFrom (skip : nat) (s : string) : option string :=
  match s with
  | EmptyString => Some EmptyString
  | String c s' =>
      match skip with
      | S k => textFrom k s'
      | O =>
          match tagPrefix s with
          | Some g => textFrom (String.length g - 1) s'
          | None =>
              if String.prefix "<br>" s
              then option_map (String newline) (textFrom 3 s')
              else if Ascii.eqb c "<" then None
              else option_map (String c) (textFrom 0 s')
          end
      end
  end.

Definition markupText (markup : string) : option string := textFrom 0 markup.

Definition wellFormed (markup : string) : bool :=
  match markupText markup with Some _ => true | None => false end.

(** No less-than sign of the text is followed by the letter b. *)
Fixpoint noBreakStart (s : string) : bool :=
  match s with
  | EmptyString => true
  | String c s' =>
      match s' with
      | String d _ => negb (Ascii.eqb c "<" && Ascii.eqb d "b")
      | EmptyString => true
      end && noBreakStart s'
  end.

(** The characters on which some rule of the language can match, and the
    five that [escapeHtml] rewrites. *)
Definition triggers (language : Language) (c : ascii) : bool :=
  isHtmlSpecial c || oneOf "/`" c ||
  match language with
  | html => false
  | css => oneOf "{}();,:" c
  | javascript => isWord c || oneOf "{}();,.:?" c || oneOf "+-*/%=&|<>!^~" c
  end.

Definition inert (language : Language) (c : ascii) : bool :=
  negb (triggers language c).

End Editor.

(** ** [App.tsx]: documents, history, search and import *)

Module App.
Import Js.
Local Open Scope Z_scope.

Inductive ActiveTab : Type := html | css | js.
Inductive ActiveAppView : Type := editor | savedProjects.
Inductive Navigation : Type := next | prev.

Definition MAX_UNDO_STACK_SIZE : nat := 50.

Record SearchResults : Type := {
  indices : list Z;
  currentResultIndex : Z
}.

(** The pieces of React state of the [App] component that the handlers
    below read or write.  [editorUpdateKey] counts in integers, as the
    source's number does up to two to the power 53. *)
Record State : Type := {
  htmlCode : string;
  cssCode : string;
  jsCode : string;
  activeTab : ActiveTab;
  activeAppView : ActiveAppView;
  searchTerm : string;
  searchResults : SearchResults;
  lastSearchedTerm : string;
  htmlUndoStack : list string;
  cssUndoStack : list string;
  jsUndoStack : list string;
  htmlRedoStack : list string;
  cssRedoStack : list string;
  jsRedoStack : list string;
  editorUpdateKey : Z
}.

(** State setters.  A handler runs to completion on the state of the last
    render and its setter calls are applied together. *)
Definition setHtmlCode (v : string) (st : State) : State :=
  let (_, a2, a3, a4, a5, a6, a7, a8, a9, a10, a11, a12, a13, a14, a15) := st in
  Build_State v a2 a3 a4 a5 a6 a7 a8 a9 a10 a11 a12 a13 a14 a15.
Definition setCssCode (v : string) (st : State) : State :=
  let (a1, _, a3, a4, a5, a6, a7, a8, a9, a10, a11, a12, a13, a14, a15) := st in
  Build_State a1 v a3 a4 a5 a6 a7 a8 a9 a10 a11 a12 a13 a14 a15.
Definition setJsCode (v : string) (st : State) : State :=
  let (a1, a2, _, a4, a5, a6, a7, a8, a9, a10, a11, a12, a13, a14, a15) := st in
  Build_State a1 a2 v a4 a5 a6 a7 a8 a9 a10 a11 a12 a13 a14 a15.
Definition setActiveTab (v : ActiveTab) (st : State) : State :=
  let (a1, a2, a3, _, a5, a6, a7, a8, a9, a10, a11, a12, a13, a14, a15) := st in
  Build_State a1 a2 a3 v a5 a6 a7 a8 a9 a10 a11 a12 a13 a14 a15.
Definition setActiveAppView (v : ActiveAppView) (st : State) : State :=
  let (a1, a2, a3, a4, _, a6, a7, a8, a9, a10, a11, a12, a13, a14, a15) := st in
  Build_State a1 a2 a3 a4 v a6 a7 a8 a9 a10 a11 a12 a13 a14 a15.
Definition setSearchTerm (v : string) (st : State) : State :=
  let (a1, a2, a3, a4, a5, _, a7, a8, a9, a10, a11, a12, a13, a14, a15) := st in
  Build_State a1 a2 a3 a4 a5 v a7 a8 a9 a10 a11 a12 a13 a14 a15.
Definition setSearchResults (v : SearchResults) (st : State) : State :=
  let (a1, a2, a3, a4, a5, a6, _, a8, a9, a10, a11, a12, a13, a14, a15) := st in
  Build_State a1 a2 a3 a4 a5 a6 v a8 a9 a10 a11 a12 a13 a14 a15.
Definition setLastSearchedTerm (v : string) (st : State) : State :=
  let (a1, a2, a3, a4, a5, a6, a7, _, a9, a10, a11, a12, a13, a14, a15) := st in
  Build_State a1 a2 a3 a4 a5 a6 a7 v a9 a10 a11 a12 a13 a14 a15.
Definition setHtmlUndoStack (v : list string) (st : State) : State :=
  let (a1, a2, a3, a4, a5, a6, a7, a8, _, a10, a11, a12, a13, a14, a15) := st in
  Build_State a1 a2 a3 a4 a5 a6 a7 a8 v a10 a11 a12 a13 a14 a15.
Definition setCssUndoStack (v : list string) (st : State) : State :=
  let (a1, a2, a3, a4, a5, a6, a7, a8, a9, _, a11, a12, a13, a14, a15) := st in
  Build_State a1 a2 a3 a4 a5 a6 a7 a8 a9 v a11 a12 a13 a14 a15.
Definition setJsUndoStack (v : list string) (st : State) : State :=
  let (a1, a2, a3, a4, a5, a6, a7, a8, a9, a10, _, a12, a13, a14, a15) := st in
  Build_State a1 a2 a3 a4 a5 a6 a7 a8 a9 a10 v a12 a13 a14 a15.
Definition setHtmlRedoStack (v : list string) (st : State) : State :=
  let (a1, a2, a3, a4, a5, a6, a7, a8, a9, a10, a11, _, a13, a14, a15) := st in
  Build_State a1 a2 a3 a4 a5 a6 a7 a8 a9 a10 a11 v a13 a14 a15.
Definition setCssRedoStack (v : list string) (st : State) : State :=
  let (a1, a2, a3, a4, a5, a6, a7, a8, a9, a10, a11, a12, _, a14, a15) := st in
  Build_State a1 a2 a3 a4 a5 a6 a7 a8 a9 a10 a11 a12 v a14 a15.
Definition setJsRedoStack (v : list string) (st : State) : State :=
  let (a1, a2, a3, a4, a5, a6, a7, a8, a9, a10, a11, a12, a13, _, a15) := st in
  Build_State a1 a2 a3 a4 a5 a6 a7 a8 a9 a10 a11 a12 a13 v a15.
Definition setEditorUpdateKey (f : Z -> Z) (st : State) : State :=
  let (a1, a2, a3, a4, a5, a6, a7, a8, a9, a10, a11, a12, a13, a14, a15) := st in
  Build_State a1 a2 a3 a4 a5 a6 a7 a8 a9 a10 a11 a12 a13 a14 (f a15).

(** [a.slice(0, n)] *)
Definition slice0 {A : Type} (n : nat) (a : list A) : list A := firstn n a.

Definition clearAllUndoRedoStacks (st : State) : State :=
  setJsRedoStack [] (setCssRedoStack [] (setHtmlRedoStack []
    (setJsUndoStack [] (setCssUndoStack [] (setHtmlUndoStack [] st))))).

Definition pushToUndoStackInternal (currentCodeValue : string)
  (stack : list string) (stackSetter : list string -> State -> State)
  (st : State) : State :=
  if (0 <? length stack)%nat
     && match stack with
        | top :: _ => String.eqb top currentCodeValue
        | [] => false
        end
  then st
  else
    let newStack := currentCodeValue :: stack in
    stackSetter (if (MAX_UNDO_STACK_SIZE <? length newStack)%nat
                 then slice0 MAX_UNDO_STACK_SIZE newStack else newStack) st.

Definition handleHtmlChange (value : string) (st : State) : State :=
  if negb (String.eqb value (htmlCode st)) then
    setHtmlRedoStack []
      (setHtmlCode value
         (pushToUndoStackInternal (htmlCode st) (htmlUndoStack st)
            setHtmlUndoStack st))
  else st.

Definition handleCssChange (value : string) (st : State) : State :=
  if negb (String.eqb value (cssCode st)) then
    setCssRedoStack []
      (setCssCode value
         (pushToUndoStackInternal (cssCode st) (cssUndoStack st)
            setCssUndoStack st))
  else st.

Definition handleJsChange (value : string) (st : State) : State :=
  if negb (String.eqb value (jsCode st)) then
    setJsRedoStack []
      (setJsCode value
         (pushToUndoStackInternal (jsCode st) (jsUndoStack st)
            setJsUndoStack st))
  else st.

(** [renderEditor]: the editor of the active tab is the one on screen and
    its [onChange] is the change handler of that tab. *)
Definition onChange (st : State) : string -> State -> State :=
  match activeTab st with
  | html => handleHtmlChange
  | css => handleCssChange
  | js => handleJsChange
  end.

Definition getCurrentEditorRef (st : State) : option ActiveTab :=
  match activeAppView st with
  | editor => Some (activeTab st)
  | savedProjects => None
  end.

Definition getCurrentCode (st : State) : string :=
  match activeAppView st with
  | editor =>
      match activeTab st with
      | html => htmlCode st
      | css => cssCode st
      | js => jsCode st
      end
  | savedProjects => ""
  end.

Definition handleUndo (st : State) : State :=
  let '(stack, code, redoStack, codeSetter, stackSetter, redoStackSetter) :=
    match activeTab st with
    | html => (htmlUndoStack st, htmlCode st, htmlRedoStack st,
               setHtmlCode, setHtmlUndoStack, setHtmlRedoStack)
    | css => (cssUndoStack st, cssCode st, cssRedoStack st,
              setCssCode, setCssUndoStack, setCssRedoStack)
    | js => (jsUndoStack st, jsCode st, jsRedoStack st,
             setJsCode, setJsUndoStack, setJsRedoStack)
    end in
  match stack with
  | lastState :: restOfStack =>
      setEditorUpdateKey (fun prev => prev + 1)
        (stackSetter restOfStack
           (codeSetter lastState
              (redoStackSetter
                 (slice0 MAX_UNDO_STACK_SIZE (code :: redoStack)) st)))
  | [] => st
  end.

Definition handleRedo (st : State) : State :=
  let '(stack, code, undoStack, codeSetter, stackSetter, undoStackSetter) :=
    match activeTab st with
    | html => (htmlRedoStack st, htmlCode st, htmlUndoStack st,
               setHtmlCode, setHtmlRedoStack, setHtmlUndoStack)
    | css => (cssRedoStack st, cssCode st, cssUndoStack st,
              setCssCode, setCssRedoStack, setCssUndoStack)
    | js => (jsRedoStack st, jsCode st, jsUndoStack st,
             setJsCode, setJsRedoStack, setJsUndoStack)
    end in
  match stack with
  | nextState :: restOfStack =>
      setEditorUpdateKey (fun prev => prev + 1)
        (stackSetter restOfStack
           (codeSetter nextState
              (undoStackSetter
                 (slice0 MAX_UNDO_STACK_SIZE (code :: undoStack)) st)))
  | [] => st
  end.

Definition isNil {A : Type} (l : list A) : bool :=
  match l with [] => true | _ => false end.

Definition isUndoDisabled (st : State) : bool :=
  match activeAppView st with
  | savedProjects => true
  | editor =>
      match activeTab st with
      | html => isNil (htmlUndoStack st)
      | css => isNil (cssUndoStack st)
      | js => isNil (jsUndoStack st)
      end
  end.

Definition isRedoDisabled (st : State) : bool :=
  match activeAppView st with
  | savedProjects => true
  | editor =>
      match activeTab st with
      | html => isNil (htmlRedoStack st)
      | css => isNil (cssRedoStack st)
      | js => isNil (jsRedoStack st)
      end
  end.

(** *** Search *)

(** Offset of the first occurrence of [t] in [s]. *)
Fixpoint findFirst (t s : string) : option nat :=
  if String.prefix t s then Some 0%nat
  else
    match s with
    | EmptyString => None
    | String _ s' => option_map S (findFirst t s')
    end.

(** [s.indexOf(t, position)]: the position is clamped to the string, the
    result is the least offset from there on at which [t] occurs, or -1. *)
Definition indexOf (s t : string) (position : Z) : Z :=
  let start := Z.to_nat (Z.min (Z.max position 0) (Z.of_nat (String.length s))) in
  match findFirst t (drop start s) with
  | Some k => Z.of_nat (start + k)
  | None => -1
  end.

(** The [while] loop of [handleSearch]; [None] when [fuel] iterations do
    not reach its exit. *)
Fixpoint searchLoop (fuel : nat) (codeToSearch term : string) (i : Z)
  (newIndices : list Z) : option (list Z) :=
  match fuel with
  | O => None
  | S fuel' =>
      let i' := indexOf codeToSearch term (i + 1) in
      if negb (i' =? -1)
      then searchLoop fuel' codeToSearch term i' (newIndices ++ [i'])%list
      else Some newIndices
  end.

Definition noResults : SearchResults :=
  {| indices := []; currentResultIndex := -1 |}.

(** [handleSearch(navigation)].  [attached tab] tells whether the ref of
    the editor of [tab] holds an element.  The scrolling of the editor
    element to the selected match is an effect on the page, outside the
    state. *)
Definition handleSearch (fuel : nat) (attached : ActiveTab -> bool)
  (navigation : option Navigation) (st : State) : option State :=
  let currentCode := getCurrentCode st in
  let actualEditorElement :=
    match getCurrentEditorRef st with
    | Some ref => attached ref
    | None => false
    end in
  if negb actualEditorElement || isEmpty currentCode then
    Some (setSearchResults noResults st)
  else if isEmpty (trim (searchTerm st)) then
    Some (setSearchResults noResults st)
  else
    let newIndices := indices (searchResults st) in
    let newCurrentResultIndex := currentResultIndex (searchResults st) in
    if negb (String.eqb (searchTerm st) (lastSearchedTerm st))
       || match navigation with None => true | Some _ => false end
    then
      let term := toLowerCase (searchTerm st) in
      let codeToSearch := toLowerCase currentCode in
      match searchLoop fuel codeToSearch term (-1) [] with
      | None => None
      | Some newIndices =>
          let newCurrentResultIndex :=
            if (0 <? length newIndices)%nat then 0 else -1 in
          Some (setSearchResults
                  {| indices := newIndices;
                     currentResultIndex := newCurrentResultIndex |}
                  (setLastSearchedTerm (searchTerm st) st))
      end
    else
      match navigation with
      | Some nav =>
          if (0 <? length newIndices)%nat then
            let len := Z.of_nat (length newIndices) in
            let newCurrentResultIndex :=
              match nav with
              | next => Z.rem (newCurrentResultIndex + 1) len
              | prev => Z.rem (newCurrentResultIndex - 1 + len) len
              end in
            Some (setSearchResults
                    {| indices := newIndices;
                       currentResultIndex := newCurrentResultIndex |} st)
          else
            Some (setSearchResults
                    {| indices := newIndices;
                       currentResultIndex := newCurrentResultIndex |} st)
      | None =>
          Some (setSearchResults
                  {| indices := newIndices;
                     currentResultIndex := newCurrentResultIndex |} st)
      end.

(** The search as section 4.4 of the specification words it: every scan
    resumes at the end of the previous match. *)
Fixpoint scanFromMatchEnd (fuel : nat) (codeToSearch term : string)
  (from : Z) (found : list Z) : option (list Z) :=
  match fuel with
  | O => None
  | S fuel' =>
      let i := indexOf codeToSearch term from in
      if negb (i =? -1)
      then scanFromMatchEnd fuel' codeToSearch term
             (i + Z.of_nat (String.length term)) (found ++ [i])%list
      else Some found
  end.

(** All offsets at which [term] occurs in [codeToSearch], ascending. *)
Definition occursAt (term codeToSearch : string) (i : nat) : bool :=
  String.prefix term (drop i codeToSearch).

Definition occurrences (term codeToSearch : string) : list Z :=
  map Z.of_nat
    (filter (occursAt term codeToSearch) (seq 0 (String.length codeToSearch))).

(** *** Import *)

Definition exn : Type := string.

Inductive Result (A : Type) : Type :=
| Ok (a : A)
| Throw (e : exn).
Arguments Ok {A} a.
Arguments Throw {A} e.

(** The page's parser and element tree, as far as the import uses them.
    Every call may raise. *)
Class Dom : Type := {
  Document : Type;
  Element : Type;
  parseFromString : string -> string -> Result Document;
  getElementById : Document -> string -> Result (option Element);
  innerHTML : Element -> Result string;
  textContent : Element -> Result string
}.

Inductive Effect : Type :=
| alert (message : string)
| consoleError (message : string) (error : exn).

Record World : Type := {
  state : State;
  effects : list Effect
}.

(** Handlers that call into the page: state, an effect log and exceptions.
    What was written before an exception stays written. *)
Definition M (A : Type) : Type := World -> World * Result A.

Definition ret {A : Type} (a : A) : M A := fun w => (w, Ok a).

Definition bind {A B : Type} (c : M A) (f : A -> M B) : M B :=
  fun w =>
    match c w with
    | (w', Ok a) => f a w'
    | (w', Throw e) => (w', Throw e)
    end.

Notation "x <- c1 ;; c2" := (bind c1 (fun x => c2))
  (at level 61, c1 at next level, right associativity).
Notation "c1 ;; c2" := (bind c1 (fun _ => c2))
  (at level 61, right associativity).

Definition call {A : Type} (r : Result A) : M A := fun w => (w, r).

Definition setState (f : State -> State) : M unit :=
  fun w => ({| state := f (state w); effects := effects w |}, Ok tt).

Definition perform (e : Effect) : M unit :=
  fun w => ({| state := state w; effects := (effects w ++ [e])%list |}, Ok tt).

Definition tryCatch {A : Type} (body : M A) (handler : exn -> M A) : M A :=
  fun w =>
    match body w with
    | (w', Ok a) => (w', Ok a)
    | (w', Throw e) => handler e w'
    end.

(** [element?.property || ''] *)
Definition propertyOrEmpty {E : Type} (element : option E)
  (property : E -> Result string) : M string :=
  match element with
  | Some el =>
      v <- call (property el) ;;
      ret (if isEmpty v then "" else v)
  | None => ret ""
  end.

Definition importSucceeded : string := "Project imported successfully!".
Definition importFailed : string :=
  "Failed to import project. Make sure it is a valid project file.".

(** [handleImportProject]: the [onload] callback of the file reader, run on
    the content of the chosen file. *)
Definition handleImportProject `{Dom} (fileContent : string) : M unit :=
  tryCatch
    (doc <- call (parseFromString fileContent "text/html") ;;
     htmlElement <- call (getElementById doc "project-html-content") ;;
     importedHtml <- propertyOrEmpty htmlElement innerHTML ;;
     cssElement <- call (getElementById doc "project-css") ;;
     importedCss <- propertyOrEmpty cssElement textContent ;;
     jsElement <- call (getElementById doc "project-js") ;;
     importedJs <- propertyOrEmpty jsElement textContent ;;
     setState clearAllUndoRedoStacks ;;
     setState (setHtmlCode importedHtml) ;;
     setState (setCssCode importedCss) ;;
     setState (setJsCode importedJs) ;;
     setState (setActiveTab html) ;;
     setState (setActiveAppView editor) ;;
     setState (setEditorUpdateKey (fun prev => prev + 1)) ;;
     perform (alert importSucceeded))
    (fun error =>
       perform (consoleError "Error importing project:" error) ;;
       perform (alert importFailed)).

(** What [reader.readAsText(file)] ends with: the reader fires its [load]
    event with the content of the file, or its [error] event. *)
Inductive ReaderEvent : Type :=
| onload (result : string)
| onerror (error : exn).

(** [input.onchange]: when a file was chosen it is read, and the [onload]
    callback runs the import on its content.  The reader is given no
    other callback: its [error] event runs nothing. *)
Definition onchange `{Dom} (file : option ReaderEvent) : M unit :=
  match file with
  | Some (onload fileContent) => handleImportProject fileContent
  | Some (onerror _) => ret tt
  | None => ret tt
  end.

(** The page of a browser: the [text/html] parser builds a document from
    every text, and the element lookups and property reads return. *)
Definition browserLike (D : Dom) : Prop :=
  (forall fileContent : string,
     exists doc, parseFromString fileContent "text/html" = Ok doc) /\
  (forall (doc : Document) (id : string),
     exists element, getElementById doc id = Ok element) /\
  (forall el : Element, exists v, innerHTML el = Ok v) /\
  (forall el : Element, exists v, textContent el = Ok v).

(** A page for trying the import out: a document is a list of elements,
    each an identifier with its content; the parser builds from every file
    a project with a body and a style block, and a script block only if
    the file says so. *)
Definition trialDom : Dom := {|
  Document := list (string * string);
  Element := string;
  parseFromString := fun fileContent _ =>
    Ok ([("project-html-content", fileContent); ("project-css", "p{}")]
        ++ if includes "script" fileContent
           then [("project-js", "go()")] else [])%list;
  getElementById := fun doc id =>
    Ok (option_map snd (find (fun el => String.eqb (fst el) id) doc));
  innerHTML := fun el => Ok el;
  textContent := fun el => Ok el
|}.

(** *** Views of the state used to state properties *)

(** The document of a tab: its text and its two stacks. *)
Definition codeOf (tab : ActiveTab) (st : State) : string :=
  match tab with
  | html => htmlCode st
  | css => cssCode st
  | js => jsCode st
  end.

Definition undoStackOf (tab : ActiveTab) (st : State) : list string :=
  match tab with
  | html => htmlUndoStack st
  | css => cssUndoStack st
  | js => jsUndoStack st
  end.

Definition redoStackOf (tab : ActiveTab) (st : State) : list string :=
  match tab with
  | html => htmlRedoStack st
  | css => cssRedoStack st
  | js => jsRedoStack st
  end.

(** The user edits the text of the editor on screen. *)
Definition edit (value : string) (st : State) : State := onChange st value st.

(** The [onClick] of a tab button. *)
Definition selectTab (tab : ActiveTab) (st : State) : State :=
  setLastSearchedTerm "" (setSearchResults noResults (setActiveTab tab st)).

Inductive Event : Type :=
| Edit (value : string)
| Undo
| Redo
| SelectTab (tab : ActiveTab).

Definition step (st : State) (e : Event) : State :=
  match e with
  | Edit value => edit value st
  | Undo => handleUndo st
  | Redo => handleRedo st
  | SelectTab tab => selectTab tab st
  end.

Definition run (events : list Event) (st : State) : State :=
  fold_left step events st.

Definition withinBound (st : State) : Prop :=
  forall tab,
    (length (undoStackOf tab st) <= MAX_UNDO_STACK_SIZE)%nat /\
    (length (redoStackOf tab st) <= MAX_UNDO_STACK_SIZE)%nat.

End App.

(** ** Further views of the documents *)

Module Docs.
Import Js App.

(** No two neighbours of the list are equal. *)
Fixpoint distinctNeighbours (l : list string) : Prop :=
  match l with
  | a :: (b :: _) as rest => a <> b /\ distinctNeighbours rest
  | _ => True
  end.

(** The text of every document differs from the top of both its stacks,
    and neither stack repeats an entry right after itself. *)
Definition tidy (st : State) : Prop :=
  forall tab,
    distinctNeighbours (codeOf tab st :: undoStackOf tab st) /\
    distinctNeighbours (codeOf tab st :: redoStackOf tab st).

Definition sameDocument (tab : ActiveTab) (st st' : State) : Prop :=
  codeOf tab st' = codeOf tab st /\
  undoStackOf tab st' = undoStackOf tab st /\
  redoStackOf tab st' = redoStackOf tab st.

(** The results of a search select a match of the list, or nothing of an
    empty list. *)
Definition selectionValid (r : SearchResults) : Prop :=
  (indices r = [] /\ currentResultIndex r = (-1)%Z) \/
  (0 <= currentResultIndex r < Z.of_nat (length (indices r)))%Z.

(** What [escapeHtml] makes of one code unit. *)
Definition escapeOne (c : ascii) : string :=
  if Editor.isHtmlSpecial c then Editor.escapeChar (str c) else str c.

(** The code units other than the angle brackets and the two quotes. *)
Definition markupFree (c : ascii) : bool :=
  negb (oneOf "<>'" c || Ascii.eqb c dquote).

End Docs.

(** ** [App.tsx]: the projects saved in local storage *)

Module Projects.
Import Js.

Record SavedProject : Type := {
  id : string;
  name : string;
  htmlCode : string;
  cssCode : string;
  jsCode : string;
  timestamp : string
}.

Definition LOCAL_STORAGE_PROJECTS_KEY : string := "liveCodeEditor_projects".

(** The state of [App] that the project handlers use, around the state of
    the documents. *)
Record State : Type := {
  app : App.State;
  savedProjects : list SavedProject;
  projectNameInput : string;
  showSaveModal : bool;
  isBurgerMenuOpen : bool
}.

Definition setApp (f : App.State -> App.State) (st : State) : State :=
  let (a1, a2, a3, a4, a5) := st in Build_State (f a1) a2 a3 a4 a5.
Definition setSavedProjects (v : list SavedProject) (st : State) : State :=
  let (a1, _, a3, a4, a5) := st in Build_State a1 v a3 a4 a5.
Definition setProjectNameInput (v : string) (st : State) : State :=
  let (a1, a2, _, a4, a5) := st in Build_State a1 a2 v a4 a5.
Definition setShowSaveModal (v : bool) (st : State) : State :=
  let (a1, a2, a3, _, a5) := st in Build_State a1 a2 a3 v a5.
Definition setIsBurgerMenuOpen (v : bool) (st : State) : State :=
  let (a1, a2, a3, a4, _) := st in Build_State a1 a2 a3 a4 v.

(** What a handler does to the page: an alert, a write of the project list
    under a key of local storage (the list stands for its JSON text), or
    its end by an exception that nothing catches. *)
Inductive Effect : Type :=
| alert (message : string)
| setItem (key : string) (projects : list SavedProject)
| uncaught (error : App.exn).

Definition quoted (s : string) : string := str dquote ++ s ++ str dquote.

(** [handleConfirmSaveToLocal]; [now] is the text of [Date.now()],
    [isoTime] that of [new Date().toISOString()], and [write] says whether
    [localStorage.setItem] returns or raises (a full or disabled storage).
    The call stands outside any [try]: when it raises, the handler ends
    there, after [setSavedProjects] and before [setShowSaveModal]. *)
Definition handleConfirmSaveToLocal (now isoTime : string)
  (write : App.Result unit) (st : State) : State * list Effect :=
  if isEmpty (trim (projectNameInput st)) then
    (st, [alert "Project name cannot be empty."])
  else
    let newProject :=
      {| id := now;
         name := trim (projectNameInput st);
         htmlCode := App.htmlCode (app st);
         cssCode := App.cssCode (app st);
         jsCode := App.jsCode (app st);
         timestamp := isoTime |} in
    let updatedProjects := newProject :: savedProjects st in
    match write with
    | App.Ok _ =>
        (setShowSaveModal false (setSavedProjects updatedProjects st),
         [setItem LOCAL_STORAGE_PROJECTS_KEY updatedProjects;
          alert ("Project " ++ quoted (name newProject) ++ " saved locally!")])
    | App.Throw error =>
        (setSavedProjects updatedProjects st, [uncaught error])
    end.

Definition handleLoadProjectFromLocal (projectId : string) (st : State)
  : State * list Effect :=
  match find (fun p => String.eqb (id p) projectId) (savedProjects st) with
  | Some projectToLoad =>
      (setApp (App.setEditorUpdateKey (fun prev => prev + 1)%Z)
         (setIsBurgerMenuOpen false
            (setApp (fun a =>
               App.setActiveAppView App.editor
                 (App.setActiveTab App.html
                    (App.setJsCode (jsCode projectToLoad)
                       (App.setCssCode (cssCode projectToLoad)
                          (App.setHtmlCode (htmlCode projectToLoad)
                             (App.clearAllUndoRedoStacks a)))))) st)),
       [alert ("Project " ++ quoted (name projectToLoad) ++ " loaded.")])
  | None => (st, [])
  end.

(** [handleDeleteProjectFromLocal]; [confirmed] is the answer of
    [window.confirm], and [write] says whether [localStorage.setItem]
    returns or raises; here too the call stands outside any [try]. *)
Definition handleDeleteProjectFromLocal (confirmed : bool)
  (write : App.Result unit) (projectId : string) (st : State)
  : State * list Effect :=
  if confirmed then
    let updatedProjects :=
      filter (fun p => negb (String.eqb (id p) projectId)) (savedProjects st) in
    match write with
    | App.Ok _ =>
        (setSavedProjects updatedProjects st,
         [setItem LOCAL_STORAGE_PROJECTS_KEY updatedProjects;
          alert "Project deleted."])
    | App.Throw error =>
        (setSavedProjects updatedProjects st, [uncaught error])
    end
  else (st, []).

(** The editing handlers act on the documents only. *)
Definition editing (events : list App.Event) (st : State) : State :=
  setApp (App.run events) st.

(** What the user does with the saved projects, and in between with the
    documents. *)
Inductive Action : Type :=
| Save (now isoTime : string) (write : App.Result unit)
| Load (projectId : string)
| Delete (confirmed : bool) (write : App.Result unit) (projectId : string)
| TypeName (value : string)
| Editing (events : list App.Event).

Definition act (a : Action) (st : State) : State * list Effect :=
  match a with
  | Save now isoTime write => handleConfirmSaveToLocal now isoTime write st
  | Load projectId => handleLoadProjectFromLocal projectId st
  | Delete confirmed write projectId =>
      handleDeleteProjectFromLocal confirmed write projectId st
  | TypeName value => (setProjectNameInput value st, [])
  | Editing events => (editing events st, [])
  end.

(** The actions of a session in order, with all their effects. *)
Fixpoint session (actions : list Action) (st : State) : State * list Effect :=
  match actions with
  | [] => (st, [])
  | a :: actions' =>
      let (st1, effects1) := act a st in
      let (st2, effects2) := session actions' st1 in
      (st2, (effects1 ++ effects2)%list)
  end.

(** The project list that local storage holds after the effects, when it
    held [stored] before. *)
Fixpoint storedAfter (effects : list Effect) (stored : list SavedProject)
  : list SavedProject :=
  match effects with
  | [] => stored
  | setItem _ projects :: effects' => storedAfter effects' projects
  | alert _ :: effects' => storedAfter effects' stored
  | uncaught _ :: effects' => storedAfter effects' stored
  end.

(** The write of local storage that the action makes, if it makes one,
    returns. *)
Definition writeReturns (a : Action) : bool :=
  match a with
  | Save _ _ (App.Throw _) => false
  | Delete _ (App.Throw _) _ => false
  | _ => true
  end.

End Projects.

(** ** [components/Editor.tsx]: the editable surface *)

Module Surface.
Import Js.

(** The refs of the component: the content of the editor element when one
    is attached, the text last rendered or typed, and the composition
    flag. *)
Record Refs : Type := {
  innerHTML : option string;
  lastValueRef : string;
  isComposingRef : bool
}.

Definition setEditorContent (language : Editor.Language) (newText : string)
  (r : Refs) : Refs :=
  match innerHTML r with
  | Some _ =>
      {| innerHTML := Some (Editor.applySyntaxHighlighting newText language);
         lastValueRef := newText;
         isComposingRef := isComposingRef r |}
  | None => r
  end.

(** The effect on [value] and [forceUpdateKey]: a value that the surface
    did not produce itself is rendered (the caret is dealt with by
    [restoreCaret] below). *)
Definition externalChangeEffect (language : Editor.Language) (value : string)
  (r : Refs) : Refs :=
  if negb (String.eqb value (lastValueRef r))
  then setEditorContent language value r else r.

(** The effect on [language] and [value]. *)
Definition contentEffect (language : Editor.Language) (value : string)
  (r : Refs) : Refs :=
  setEditorContent language value r.

(** The effects of a render in which the value has changed, in the order
    of their declaration. *)
Definition afterRender (language : Editor.Language) (value : string)
  (r : Refs) : Refs :=
  contentEffect language value (externalChangeEffect language value r).

(** [handleInput] on the text content of the element; the second component
    is the argument of the call of [onChange], if there is one. *)
Definition handleInput (textContent : string) (r : Refs)
  : Refs * option string :=
  if isComposingRef r then (r, None)
  else
    let newText := if isEmpty textContent then "" else textContent in
    ({| innerHTML := innerHTML r;
        lastValueRef := newText;
        isComposingRef := isComposingRef r |}, Some newText).

Definition onCompositionStart (r : Refs) : Refs :=
  {| innerHTML := innerHTML r;
     lastValueRef := lastValueRef r;
     isComposingRef := true |}.

Definition onCompositionEnd (textContent : string) (r : Refs)
  : Refs * option string :=
  handleInput textContent
    {| innerHTML := innerHTML r;
       lastValueRef := lastValueRef r;
       isComposingRef := false |}.

Inductive Event : Type :=
| Input (textContent : string)
| CompositionStart
| CompositionEnd (textContent : string).

Definition dispatch (e : Event) (r : Refs) : Refs * option string :=
  match e with
  | Input textContent => handleInput textContent r
  | CompositionStart => (onCompositionStart r, None)
  | CompositionEnd textContent => onCompositionEnd textContent r
  end.

(** The events of a session in order, with the values passed to
    [onChange]. *)
Fixpoint receive (events : list Event) (r : Refs) : Refs * list string :=
  match events with
  | [] => (r, [])
  | e :: events' =>
      let (r1, change) := dispatch e r in
      let (r2, changes) := receive events' r1 in
      (r2, match change with
           | Some v => v :: changes
           | None => changes
           end)
  end.

(** *** The caret after a render *)

(** The tree under the editor element: text nodes and nodes with
    children. *)
#[warnings="-register-all"]
Inductive Node : Type :=
| TextNode (nodeValue : string)
| ElementNode (childNodes : list Node).

(** [text || ''] *)
Definition orEmpty (text : option string) : string :=
  match text with
  | Some t => if isEmpty t then "" else t
  | None => ""
  end.

(** [findTextNode]; the result is the path of child indices from [node] to
    the node found. *)
Fixpoint findTextNode (node : Node) (text : option string)
  : option (list nat) :=
  match node with
  | TextNode nodeValue =>
      if includes (orEmpty text) nodeValue then Some [] else None
  | ElementNode childNodes =>
      (fix loop (i : nat) (children : list Node) : option (list nat) :=
         match children with
         | [] => None
         | child :: rest =>
             match findTextNode child text with
             | Some found => Some (i :: found)
             | None => loop (S i) rest
             end
         end) 0 childNodes
  end.

Fixpoint nodeAt (path : list nat) (node : Node) : option Node :=
  match path with
  | [] => Some node
  | i :: path' =>
      match node with
      | TextNode _ => None
      | ElementNode childNodes =>
          match nth_error childNodes i with
          | Some child => nodeAt path' child
          | None => None
          end
      end
  end.

(** The node in which the selection started before the render: a text
    node with its text, or another node. *)
Inductive Container : Type :=
| TextContainer (textContent : string)
| OtherContainer.

(** Where the effect puts the caret: at an offset of a text node, at a
    collapsed range over the contents of the first child (with the
    argument given to [collapse]), or nowhere. *)
Inductive Placement : Type :=
| SetStart (path : list nat) (offset : nat)
| CollapseFirstChild (argument : bool)
| Untouched.

(** The caret restoration of the first effect, on the tree rendered and
    the start of the selection captured before the render. *)
Definition restoreCaret (root : Node) (startContainer : option Container)
  (startOffset : nat) : Placement :=
  match startContainer with
  | None => Untouched
  | Some container =>
      let newStartContainer :=
        match container with
        | TextContainer textContent => findTextNode root (Some textContent)
        | OtherContainer => None
        end in
      let fallback :=
        match root with
        | ElementNode (_ :: _) => CollapseFirstChild (0 <? startOffset)
        | _ => Untouched
        end in
      match newStartContainer with
      | Some path =>
          match nodeAt path root with
          | Some (TextNode nodeValue) =>
              if isEmpty nodeValue then fallback
              else SetStart path (Nat.min startOffset (String.length nodeValue))
          | _ => fallback
          end
      | None => fallback
      end
  end.

(** The text nodes of a tree in document order, with their paths. *)
Fixpoint textNodes (node : Node) : list (list nat * string) :=
  match node with
  | TextNode nodeValue => [([], nodeValue)]
  | ElementNode childNodes =>
      (fix loop (i : nat) (children : list Node) : list (list nat * string) :=
         match children with
         | [] => []
         | child :: rest =>
             (map (fun pv => (i :: fst pv, snd pv)) (textNodes child)
              ++ loop (S i) rest)%list
         end) 0 childNodes
  end.

End Surface.

(** * Properties *)

(** ** Proof automation *)

Ltac open_state st :=
  destruct st as [hc cc jc tab view term res last hu cu ju hr cr jr key].

(** Reduction of projections and setters only. *)
Ltac st_cbn :=
  cbn [App.htmlCode App.cssCode App.jsCode App.activeTab App.activeAppView
       App.searchTerm App.searchResults App.lastSearchedTerm
       App.htmlUndoStack App.cssUndoStack App.jsUndoStack
       App.htmlRedoStack App.cssRedoStack App.jsRedoStack App.editorUpdateKey
       App.setHtmlCode App.setCssCode App.setJsCode App.setActiveTab
       App.setActiveAppView App.setSearchTerm App.setSearchResults
       App.setLastSearchedTerm App.setHtmlUndoStack App.setCssUndoStack
       App.setJsUndoStack App.setHtmlRedoStack App.setCssRedoStack
       App.setJsRedoStack App.setEditorUpdateKey
       App.codeOf App.undoStackOf App.redoStackOf App.selectTab
       negb andb orb length Nat.ltb Nat.leb hd_error] in *.

Ltac unfold_handlers :=
  unfold App.edit, App.onChange, App.handleUndo, App.handleRedo in *;
  st_cbn;
  unfold App.handleHtmlChange, App.handleCssChange, App.handleJsChange,
    App.pushToUndoStackInternal, App.slice0 in *;
  cbv beta zeta in *.

(** Case analysis on the tests of a handler. *)
Ltac split_tests :=
  repeat (st_cbn;
          match goal with
          | |- context [if ?b then _ else _] => destruct b
          | |- context [match ?x with [] => _ | _ :: _ => _ end] =>
              is_var x; destruct x
          end);
  st_cbn.

(** Goals on the lengths of the stacks. *)
Ltac bound_solve :=
  repeat split;
  first [ assumption
        | apply firstn_le_length
        | cbn [length] in *; lia ].

(** Running the import on known answers of the page. *)
Ltac run_import :=
  unfold App.handleImportProject, App.tryCatch, App.propertyOrEmpty;
  unfold App.bind, App.call, App.ret, App.perform, App.setState;
  repeat match goal with
         | H : _ \/ _ |- _ => destruct H
         | H : exists _, _ |- _ => destruct H
         | H : _ /\ _ |- _ => destruct H
         end;
  repeat (match goal with
          | H : ?l = _ |- context [?l] => rewrite H
          end; cbn [App.state App.effects]).

(** ** The matcher on inputs without trigger characters *)

Section Clean.
Import Js.
Variable P : ascii -> bool.

Lemma in_allAscii (c : ascii) : In c allAscii.
Proof.
  rewrite <- (ascii_nat_embedding c).
  apply in_map, in_seq.
  pose proof (nat_ascii_bounded c). lia.
Qed.

Lemma clean_tail (c : ascii) (s : string) :
  clean P (String c s) -> P c = false /\ clean P s.
Proof.
  unfold clean; simpl. intros H.
  apply andb_true_iff in H. destruct H as [Hc Hs].
  split; [now apply negb_true_iff in Hc | exact Hs].
Qed.

Lemma starLoop_clean (m : Cont -> Cont) (greedy : bool) (k : Cont) :
  (forall k' prev s, clean P s ->
     (forall p' s', clean P s' -> k' p' s' = None) -> m k' prev s = None) ->
  (forall p' s', clean P s' -> k p' s' = None) ->
  forall n prev s, clean P s -> starLoop m greedy k n prev s = None.
Proof.
  intros Hm Hk n. induction n as [|n IH]; intros prev s Hs; simpl.
  - now apply Hk.
  - assert (Hit : m (fun p' s' =>
               if String.length s' <? String.length s
               then starLoop m greedy k n p' s' else None) prev s = None).
    { apply Hm; [exact Hs|]. intros p' s' Hs'.
      destruct (String.length s' <? String.length s); [now apply IH | reflexivity]. }
    destruct greedy; rewrite Hit, (Hk prev s Hs); reflexivity.
Qed.

(** A continuation that fails on every clean input makes the match fail:
    the matcher only ever hands over a suffix of its input. *)
Lemma rmatch_clean (r : regex) :
  forall k prev s, clean P s ->
    (forall p' s', clean P s' -> k p' s' = None) -> rmatch r k prev s = None.
Proof.
  induction r as [|p|r1 IH1 r2 IH2|r1 IH1 r2 IH2|g r IH|r IH| |];
    intros k prev s Hs Hk; simpl.
  - now apply Hk.
  - destruct s as [|c s']; [reflexivity|].
    destruct (p c); [|reflexivity].
    apply Hk. now apply clean_tail in Hs.
  - apply IH1; [exact Hs|]. intros p' s' Hs'. now apply IH2.
  - rewrite IH1, IH2; auto.
  - apply starLoop_clean; auto.
  - destruct (rmatch r _ prev s); [now apply Hk | reflexivity].
  - destruct (xorb _ _); [now apply Hk | reflexivity].
  - destruct prev; [reflexivity | now apply Hk].
Qed.

Lemma needs_sound (r : regex) :
  needs P r = true ->
  forall k prev s, clean P s -> rmatch r k prev s = None.
Proof.
  induction r as [|p|r1 IH1 r2 IH2|r1 IH1 r2 IH2|g r IH|r IH| |];
    intros Hn k prev s Hs; cbn [needs] in Hn; cbn [rmatch];
    try discriminate.
  - destruct s as [|c s']; [reflexivity|].
    apply clean_tail in Hs. destruct Hs as [Hc _].
    destruct (p c) eqn:Hp; [|reflexivity].
    rewrite forallb_forall in Hn.
    specialize (Hn c (in_allAscii c)).
    rewrite Hp, Hc in Hn. discriminate.
  - apply orb_true_iff in Hn. destruct Hn as [Hn|Hn].
    + now apply IH1.
    + apply rmatch_clean; [exact Hs|]. intros p' s' Hs'. now apply IH2.
  - apply andb_true_iff in Hn. destruct Hn as [Hn1 Hn2].
    rewrite IH1, IH2; auto.
  - rewrite IH; auto.
Qed.

Lemma exec_clean (r : regex) (prev : option ascii) (s : string) :
  needs P r = true -> clean P s -> exec r prev s = None.
Proof.
  intros Hn Hs. unfold exec. now rewrite needs_sound.
Qed.

(** Without a match, [replace] copies its input. *)
Lemma replaceFrom_clean (r : regex) (f : string -> string) :
  needs P r = true ->
  forall s prev, clean P s -> replaceFrom r f 0 prev s = s.
Proof.
  intros Hn s. induction s as [|c s IH]; intros prev Hs; simpl.
  - now rewrite exec_clean.
  - rewrite exec_clean by assumption.
    f_equal. apply IH. now apply clean_tail in Hs.
Qed.

Lemma replace_clean (r : regex) (f : string -> string) (s : string) :
  needs P r = true -> clean P s -> replace r f s = s.
Proof. intros. now apply replaceFrom_clean. Qed.

End Clean.

(** ** The highlighter *)

Section Highlighter.
Import Js Editor.

(** The highlighter on small inputs. *)
Example highlight_html_tag :
  applySyntaxHighlighting "<b>x</b>" html
  = span tag "&lt;b" ++ span tag "&gt;" ++ "x"
    ++ span tag "&lt;/b" ++ span tag "&gt;".
Proof. vm_compute. reflexivity. Qed.

Example highlight_css_rule :
  applySyntaxHighlighting "a{}" css
  = span selector "a" ++ span punctuation "{" ++ span punctuation "}".
Proof. vm_compute. reflexivity. Qed.

Example highlight_lines :
  applySyntaxHighlighting ("ab" ++ str newline ++ "cd") javascript
  = "ab<br>cd".
Proof. vm_compute. reflexivity. Qed.

(** The string rule runs after the comment rule and matches the quoted
    class name of the span that the comment rule has just inserted: the
    text of a comment does not read back. *)
Example highlight_comment :
  applySyntaxHighlighting "// c" html
  = "<span class=" ++ span string_ (str dquote ++ "text-green-400" ++ str dquote)
    ++ ">// c</span>"
  /\ readBack (applySyntaxHighlighting "// c" html)
     = str dquote ++ "text-green-400" ++ str dquote ++ ">// c".
Proof. split; vm_compute; reflexivity. Qed.

Lemma rules_need_triggers (language : Language) :
  forallb (fun rule => needs (triggers language) (fst rule)) (rules language)
  = true.
Proof. destruct language; vm_compute; reflexivity. Qed.

Lemma escape_needs_triggers (language : Language) :
  needs (triggers language) (Chr isHtmlSpecial) = true.
Proof. destruct language; vm_compute; reflexivity. Qed.

Lemma fold_rules_clean (P : ascii -> bool) (rs : list (regex * TokenClass)) :
  forallb (fun rule => needs P (fst rule)) rs = true ->
  forall text, clean P text -> fold_left applyRule rs text = text.
Proof.
  induction rs as [|rule rs IH]; simpl; intros Hrs text Ht; [reflexivity|].
  apply andb_true_iff in Hrs. destruct Hrs as [Hr Hrs].
  unfold applyRule at 2. rewrite replace_clean with (P := P) by assumption.
  now apply IH.
Qed.

Lemma breaks_step (prev : option ascii) (c : ascii) (s : string) :
  replaceFrom (chr newline) lineBreak 0 prev (String c s) =
  if Ascii.eqb newline c
  then "<br>" ++ replaceFrom (chr newline) lineBreak 0 (Some c) s
  else String c (replaceFrom (chr newline) lineBreak 0 (Some c) s).
Proof.
  cbn [replaceFrom]. unfold exec, chr. cbn [rmatch].
  destruct (Ascii.eqb newline c); [|reflexivity].
  replace (String.length (String c s) - String.length s) with 1
    by (cbn [String.length]; lia).
  reflexivity.
Qed.

Lemma prefix_empty (s : string) : String.prefix "" s = true.
Proof. destruct s; reflexivity. Qed.


Lemma unbreakFrom_other (c : ascii) (s : string) :
  c <> "<"%char -> unbreakFrom 0 (String c s) = String c (unbreakFrom 0 s).
Proof.
  intros Hc. cbn [unbreakFrom String.prefix].
  destruct (ascii_dec "<" c) as [E|_]; [now symmetry in E | reflexivity].
Qed.

End Highlighter.

(** ** The escaping and the line breaks of the highlighter *)

Section Escaping.
Import Js Editor Docs.

Lemma substring_0_0 (s : string) : substring 0 0 s = "".
Proof. now destruct s. Qed.

(** [replace] over a class of single code units works code unit by code
    unit. *)
Lemma replace_class_step (p : ascii -> bool) (f : string -> string)
  (prev : option ascii) (c : ascii) (s : string) :
  replaceFrom (Chr p) f 0 prev (String c s)
  = (if p c then f (str c) else str c) ++ replaceFrom (Chr p) f 0 (Some c) s.
Proof.
  cbn [replaceFrom]. unfold exec. cbn [rmatch].
  destruct (p c); [|reflexivity].
  replace (String.length (String c s) - String.length s) with 1
    by (cbn [String.length]; lia).
  cbn [substring]. now rewrite substring_0_0.
Qed.

Lemma replace_class_prev (p : ascii -> bool) (f : string -> string) (s : string) :
  forall prev prev',
    replaceFrom (Chr p) f 0 prev s = replaceFrom (Chr p) f 0 prev' s.
Proof.
  destruct s as [|c s]; intros prev prev'; [reflexivity|].
  now rewrite !replace_class_step.
Qed.

Lemma escapeHtml_cons (c : ascii) (s : string) :
  escapeHtml (String c s) = escapeOne c ++ escapeHtml s.
Proof.
  unfold escapeHtml, replace, escapeOne. rewrite replace_class_step.
  f_equal. apply replace_class_prev.
Qed.

Lemma append_assoc (a b c : string) : (a ++ b) ++ c = a ++ (b ++ c).
Proof. induction a as [|x a IH]; cbn; [reflexivity | now rewrite IH]. Qed.

Lemma allChars_app (p : ascii -> bool) (a b : string) :
  allChars p (a ++ b) = allChars p a && allChars p b.
Proof.
  induction a as [|x a IH]; cbn; [reflexivity|].
  now rewrite IH, andb_assoc.
Qed.

Lemma special_cases (c : ascii) :
  isHtmlSpecial c = true ->
  c = "&"%char \/ c = "<"%char \/ c = ">"%char \/ c = "'"%char \/ c = dquote.
Proof.
  unfold isHtmlSpecial, oneOf. cbn [list_ascii_of_string existsb].
  rewrite !orb_true_iff, !Ascii.eqb_eq. intuition discriminate.
Qed.

Lemma escapeOne_split (c1 c2 : ascii) (r1 r2 : string) :
  escapeOne c1 ++ r1 = escapeOne c2 ++ r2 -> c1 = c2 /\ r1 = r2.
Proof.
  unfold escapeOne.
  destruct (isHtmlSpecial c1) eqn:E1, (isHtmlSpecial c2) eqn:E2.
  - apply special_cases in E1, E2.
    destruct E1 as [->|[->|[->|[->| ->]]]], E2 as [->|[->|[->|[->| ->]]]];
      cbn; intros H; try discriminate;
      (split; [reflexivity | now injection H]).
  - apply special_cases in E1.
    destruct E1 as [->|[->|[->|[->| ->]]]]; cbn; intros H;
      injection H as <- _; discriminate.
  - apply special_cases in E2.
    destruct E2 as [->|[->|[->|[->| ->]]]]; cbn; intros H;
      injection H as -> _; discriminate.
  - cbn. intros H. injection H as -> ->. now split.
Qed.

Lemma escapeOne_nonempty (c : ascii) (r : string) : escapeOne c ++ r <> "".
Proof.
  unfold escapeOne. destruct (isHtmlSpecial c) eqn:E; [|discriminate].
  apply special_cases in E.
  destruct E as [->|[->|[->|[->| ->]]]]; discriminate.
Qed.

Lemma escapeOne_markupFree (c : ascii) : allChars markupFree (escapeOne c) = true.
Proof.
  unfold escapeOne. destruct (isHtmlSpecial c) eqn:E.
  - apply special_cases in E.
    destruct E as [->|[->|[->|[->| ->]]]]; reflexivity.
  - cbn [allChars str]. rewrite andb_true_r.
    unfold markupFree. apply negb_true_iff.
    unfold isHtmlSpecial, oneOf in *.
    cbn [list_ascii_of_string existsb] in *.
    rewrite !orb_false_iff in *. intuition.
Qed.

Lemma breaks_no_newline (s : string) :
  forall prev,
    allChars (fun c => negb (Ascii.eqb c newline))
      (replaceFrom (chr newline) lineBreak 0 prev s) = true.
Proof.
  induction s as [|c s IH]; intros prev; [reflexivity|].
  rewrite breaks_step. destruct (Ascii.eqb newline c) eqn:E.
  - unfold lineBreak. cbn. apply IH.
  - cbn [allChars]. rewrite IH, andb_true_r.
    rewrite Ascii.eqb_sym. now rewrite E.
Qed.

End Escaping.

(** ** Span tags, well-formed markup and the reading back *)

Section Markup.
Import Js Editor Docs.

(** *** Prefixes *)

Lemma prefix_app (p w : string) : String.prefix p (p ++ w) = true.
Proof.
  induction p as [|c p IH]; cbn [append]; [apply prefix_empty|].
  cbn [String.prefix]. destruct (ascii_dec c c); [exact IH | congruence].
Qed.






(** *** Markers: the span tags and the line-break marker

    Each starts with the less-than sign and holds no other, and none is a
    prefix of another. *)



Lemma markers_shape (p : string) :
  In p ("<br>" :: spanTags) ->
  exists rest, p = String "<" rest /\ indexOfChar "<" rest = None.
Proof.
  intros Hp.
  assert (T : forallb (fun p =>
                match p with
                | String c rest =>
                    Ascii.eqb c "<" &&
                    match indexOfChar "<" rest with None => true | _ => false end
                | EmptyString => false
                end) ("<br>" :: spanTags) = true)
    by (vm_compute; reflexivity).
  rewrite forallb_forall in T. specialize (T p Hp).
  destruct p as [|c rest]; [discriminate|].
  apply andb_true_iff in T. destruct T as [Hc Hr].
  apply Ascii.eqb_eq in Hc. subst c. exists rest. split; [reflexivity|].
  now destruct (indexOfChar "<" rest).
Qed.





(** *** The text of well-formed markup *)














(** *** The rule loop puts span tags in and nothing else *)

Lemma Tagged_trans (a b c : string) : Tagged a b -> Tagged b c -> Tagged a c.
Proof.
  intros Hab Hbc. induction Hbc as [b|b x y g _ IH Hg]; [exact Hab|].
  apply tagged_insert; [now apply IH | exact Hg].
Qed.

Lemma Tagged_app_l (a a' b : string) : Tagged a a' -> Tagged (a ++ b) (a' ++ b).
Proof.
  induction 1 as [a|a x y g _ IH Hg]; [apply tagged_same|].
  rewrite !append_assoc. apply tagged_insert; [|exact Hg].
  now rewrite <- append_assoc.
Qed.

Lemma Tagged_app_r (a b b' : string) : Tagged b b' -> Tagged (a ++ b) (a ++ b').
Proof.
  induction 1 as [b|b x y g _ IH Hg]; [apply tagged_same|].
  rewrite <- append_assoc. apply tagged_insert; [|exact Hg].
  now rewrite append_assoc.
Qed.

Lemma Tagged_app (a a' b b' : string) :
  Tagged a a' -> Tagged b b' -> Tagged (a ++ b) (a' ++ b').
Proof.
  intros Ha Hb. apply Tagged_trans with (a' ++ b);
    [now apply Tagged_app_l | now apply Tagged_app_r].
Qed.

Lemma Tagged_cons (c : ascii) (s s' : string) :
  Tagged s s' -> Tagged (String c s) (String c s').
Proof. intros H. now apply (Tagged_app_r (str c)). Qed.

Lemma openTag_in (tokenClass : TokenClass) : In (openTag tokenClass) spanTags.
Proof.
  right. apply in_map. destruct tokenClass; cbn; tauto.
Qed.

Lemma span_tags (tokenClass : TokenClass) (m : string) :
  span tokenClass m = openTag tokenClass ++ m ++ closeTag.
Proof.
  unfold span, openTag, closeTag. now rewrite !append_assoc.
Qed.

Lemma append_empty (s : string) : s ++ "" = s.
Proof. induction s as [|c s IH]; cbn; [reflexivity | now rewrite IH]. Qed.

Lemma Tagged_wrap (tokenClass : TokenClass) (m : string) :
  Tagged m (wrapMatch tokenClass m).
Proof.
  unfold wrapMatch. destruct (_ || _); [apply tagged_same|].
  rewrite span_tags.
  apply (tagged_insert m "" (m ++ closeTag) (openTag tokenClass));
    [|apply openTag_in].
  cbn [append].
  change (m ++ closeTag) with (m ++ closeTag ++ "").
  apply (tagged_insert m m "" closeTag); [|now left].
  rewrite append_empty. apply tagged_same.
Qed.

Lemma substring_then_drop (n : nat) :
  forall s, n <= String.length s -> substring 0 n s ++ drop n s = s.
Proof.
  induction n as [|n IH]; intros s Hn.
  - now destruct s.
  - destruct s as [|c s]; [cbn in Hn; lia|].
    cbn [substring drop append]. f_equal. apply IH. cbn in Hn. lia.
Qed.

Lemma exec_length (r : regex) (prev : option ascii) (s : string) (n : nat) :
  exec r prev s = Some n -> n <= String.length s.
Proof.
  unfold exec. destruct (rmatch _ _ _ _); [|discriminate].
  intros [= <-]. lia.
Qed.

Lemma replaceFrom_tagged (r : regex) (tokenClass : TokenClass) (s : string) :
  forall skip prev,
    skip <= String.length s ->
    Tagged (drop skip s) (replaceFrom r (wrapMatch tokenClass) skip prev s).
Proof.
  induction s as [|c s IH]; intros skip prev Hskip.
  - destruct skip; [|cbn in Hskip; lia]. cbn [replaceFrom drop].
    destruct (exec r prev "") as [n|] eqn:E; [|apply tagged_same].
    apply exec_length in E. destruct n; [|cbn in E; lia].
    cbn [substring].
    apply (Tagged_app "" _ "" ""); [apply Tagged_wrap | apply tagged_same].
  - destruct skip as [|k].
    + cbn [replaceFrom drop].
      destruct (exec r prev (String c s)) as [n|] eqn:E.
      * apply exec_length in E. destruct n as [|n].
        -- rewrite substring_0_0.
           apply (Tagged_app "" _ (String c s) _); [apply Tagged_wrap|].
           apply Tagged_cons. apply (IH 0). lia.
        -- rewrite <- (substring_then_drop (S n) (String c s) E) at 1.
           apply Tagged_app; [apply Tagged_wrap|].
           cbn [drop]. apply IH. cbn in E. lia.
      * apply Tagged_cons. apply (IH 0). lia.
    + cbn [replaceFrom drop]. apply IH. cbn in Hskip. lia.
Qed.

Lemma applyRule_tagged (s : string) (rule : regex * TokenClass) :
  Tagged s (applyRule s rule).
Proof.
  unfold applyRule, replace.
  exact (replaceFrom_tagged (fst rule) (snd rule) s 0 None (Nat.le_0_l _)).
Qed.

Lemma rules_tagged (rs : list (regex * TokenClass)) :
  forall s, Tagged s (fold_left applyRule rs s).
Proof.
  induction rs as [|rule rs IH]; intros s; [apply tagged_same|].
  cbn [fold_left].
  apply Tagged_trans with (applyRule s rule); [apply applyRule_tagged | apply IH].
Qed.

(** *** Line breaks *)

Lemma breaks_prev (prev : option ascii) (s : string) :
  replaceFrom (chr newline) lineBreak 0 prev s = replace (chr newline) lineBreak s.
Proof. unfold replace, chr. apply replace_class_prev. Qed.

Lemma breaks_cons (c : ascii) (s : string) :
  replace (chr newline) lineBreak (String c s)
  = (if Ascii.eqb newline c then "<br>" else str c)
    ++ replace (chr newline) lineBreak s.
Proof.
  unfold replace at 1. rewrite breaks_step, breaks_prev.
  now destruct (Ascii.eqb newline c).
Qed.




(** The escaped text holds no less-than sign. *)
Lemma escapeHtml_no_lt (text : string) :
  allChars (fun c => negb (Ascii.eqb c "<")) (escapeHtml text) = true.
Proof.
  assert (W : forall s, allChars markupFree s = true ->
                allChars (fun c => negb (Ascii.eqb c "<")) s = true).
  { induction s as [|c s IH]; [reflexivity|]. cbn [allChars].
    rewrite !andb_true_iff. intros [Hc Hs]. split; [|now apply IH].
    unfold markupFree, oneOf in Hc. cbn [list_ascii_of_string existsb] in Hc.
    apply negb_true_iff in Hc. rewrite !orb_false_iff in Hc.
    apply negb_true_iff. rewrite Ascii.eqb_sym. tauto. }
  apply W. induction text as [|c text IH]; [reflexivity|].
  now rewrite escapeHtml_cons, allChars_app, IH, escapeOne_markupFree.
Qed.


(** *** Reading well-formed markup back *)


Lemma unbreakFrom_skip (k : nat) (s : string) :
  unbreakFrom k s = unbreakFrom 0 (drop k s).
Proof.
  revert k. induction s as [|c s IH]; intros [|k]; try reflexivity.
  cbn [unbreakFrom drop]. apply IH.
Qed.





Lemma unbreak_break (u : string) :
  unbreakFrom 0 ("<br>" ++ u) = String newline (unbreakFrom 0 u).
Proof.
  pose proof (prefix_app "<br>" u) as H.
  cbn [append] in *. cbn [unbreakFrom]. rewrite H.
  now rewrite unbreakFrom_skip.
Qed.


(** *** No rule writes the start of a line-break marker *)

Lemma noBreakStart_tail (c : ascii) (s : string) :
  noBreakStart (String c s) = true -> noBreakStart s = true.
Proof. cbn [noBreakStart]. rewrite andb_true_iff. tauto. Qed.

Lemma noBreakStart_cons (c d : ascii) (s : string) :
  noBreakStart (String c (String d s))
  = negb (Ascii.eqb c "<" && Ascii.eqb d "b") && noBreakStart (String d s).
Proof. reflexivity. Qed.

Lemma noBreakStart_clean (s : string) :
  allChars (fun c => negb (Ascii.eqb c "<")) s = true -> noBreakStart s = true.
Proof.
  induction s as [|c s IH]; [reflexivity|].
  cbn [allChars noBreakStart]. rewrite !andb_true_iff.
  intros [Hc Hs]. split; [|now apply IH].
  apply negb_true_iff in Hc. rewrite Hc. now destruct s.
Qed.

Lemma noBreakStart_tag (g y : string) :
  In g spanTags -> noBreakStart y = true -> noBreakStart (g ++ y) = true.
Proof.
  intros Hg Hy.
  assert (T : forallb (fun g =>
                match g with
                | String _ (String d rest) =>
                    negb (Ascii.eqb d "b") &&
                    allChars (fun c => negb (Ascii.eqb c "<")) (String d rest)
                | _ => false
                end) spanTags = true) by (vm_compute; reflexivity).
  rewrite forallb_forall in T. specialize (T g Hg).
  destruct g as [|c [|d rest]]; try discriminate.
  apply andb_true_iff in T. destruct T as [Hd Hrest].
  apply negb_true_iff in Hd.
  change (noBreakStart (String c (String d (rest ++ y))) = true).
  rewrite noBreakStart_cons, Hd, andb_false_r. cbn [negb andb].
  change (noBreakStart (String d rest ++ y) = true).
  revert Hrest. generalize (String d rest). clear - Hy.
  induction s as [|c s IH]; [intros _; exact Hy|].
  cbn [allChars append noBreakStart]. rewrite andb_true_iff.
  intros [Hc Hs]. apply negb_true_iff in Hc. rewrite Hc.
  rewrite IH by exact Hs. now destruct (s ++ y).
Qed.

Lemma noBreakStart_insert (x y g : string) :
  In g spanTags ->
  noBreakStart (x ++ y) = true -> noBreakStart (x ++ g ++ y) = true.
Proof.
  intros Hg. induction x as [|c x IH]; cbn [append].
  - now apply noBreakStart_tag.
  - cbn [noBreakStart]. rewrite !andb_true_iff. intros [Hc Hx].
    split; [|now apply IH].
    destruct x as [|d x]; [|exact Hc]. cbn [append].
    destruct (markers_shape g (or_intror Hg)) as (rest & -> & _).
    cbn [append]. now rewrite andb_false_r.
Qed.

Lemma noBreakStart_tagged (s s' : string) :
  Tagged s s' -> noBreakStart s = true -> noBreakStart s' = true.
Proof.
  induction 1 as [s|s x y g _ IH Hg]; intros Hs; [exact Hs|].
  apply noBreakStart_insert; [exact Hg | now apply IH].
Qed.

Lemma unbreak_breaks_all (h : string) :
  noBreakStart h = true ->
  unbreakFrom 0 (replace (chr newline) lineBreak h) = h.
Proof.
  induction h as [|c h IH]; [reflexivity|].
  intros H. pose proof (noBreakStart_tail _ _ H) as Hh.
  rewrite breaks_cons. destruct (Ascii.eqb newline c) eqn:E.
  - apply Ascii.eqb_eq in E. subst c.
    now rewrite unbreak_break, IH.
  - cbn [str append]. destruct (ascii_dec c "<") as [->|Hc].
    + assert (Hp : String.prefix "<br>"
                     (String "<" (replace (chr newline) lineBreak h)) = false).
      { destruct h as [|d h]; [reflexivity|].
        cbn [noBreakStart] in H. apply andb_true_iff in H. destruct H as [Hd _].
        cbn [Ascii.eqb Bool.eqb andb] in Hd. apply negb_true_iff in Hd.
        rewrite breaks_cons.
        destruct (Ascii.eqb newline d); [reflexivity|].
        cbn [str append String.prefix].
        destruct (ascii_dec "<" "<"); [|congruence].
        destruct (ascii_dec "b" d) as [<-|]; [discriminate | reflexivity]. }
      cbn [unbreakFrom]. rewrite Hp. now rewrite IH.
    + now rewrite unbreakFrom_other, IH.
Qed.

Lemma rules_on_empty (language : Language) :
  fold_left applyRule (rules language) "" = "".
Proof. destruct language; vm_compute; reflexivity. Qed.



End Markup.

(** A text made only of characters that are inert for the language gets
    no span: no rule can match, and the markup is the text with its line
    feeds turned into line-break markers. *)
Lemma highlight_inert_text (text : string) (language : Editor.Language) :
  Js.allChars (Editor.inert language) text = true ->
  Editor.applySyntaxHighlighting text language
  = Js.replace (Js.chr Js.newline) Editor.lineBreak text.
Proof.
  intros Hin.
  assert (Hc : Js.clean (Editor.triggers language) text) by exact Hin.
  unfold Editor.applySyntaxHighlighting.
  destruct (Js.isEmpty text) eqn:He.
  - destruct text; [reflexivity | discriminate].
  - unfold Editor.escapeHtml.
    rewrite (replace_clean (Editor.triggers language) _ _ _
               (escape_needs_triggers language) Hc).
    now rewrite (fold_rules_clean (Editor.triggers language) _
                   (rules_need_triggers language) _ Hc).
Qed.

(** Markup that is well formed, and markup that is not: operators in a
    script, a backtick string in markup and a rule of a style sheet get
    whole spans; after a comment the string rule matches the quoted class
    name of the comment's span and puts a span inside its tag, and in a
    script the keyword rule matches the word class of every earlier tag. *)
Example wellFormed_samples :
  Editor.wellFormed
    (Editor.applySyntaxHighlighting "a + b" Editor.javascript) = true /\
  Editor.wellFormed (Editor.applySyntaxHighlighting "`a`" Editor.html) = true /\
  Editor.wellFormed (Editor.applySyntaxHighlighting "a{}" Editor.css) = true /\
  Editor.wellFormed (Editor.applySyntaxHighlighting "// c" Editor.html) = false /\
  Editor.wellFormed
    (Editor.applySyntaxHighlighting "`a`" Editor.javascript) = false.
Proof. repeat split; vm_compute; reflexivity. Qed.




(** ** Undo and redo history *)

Section History.
Import Js App.

Lemma truncate_firstn {A : Type} (n : nat) (l : list A) :
  (if (n <? length l)%nat then firstn n l else l) = firstn n l.
Proof.
  destruct (n <? length l)%nat eqn:E; [reflexivity|].
  apply Nat.ltb_ge in E. symmetry. now apply firstn_all2.
Qed.

(** A change to a new value: the old text goes on the undo stack unless it
    is on top already, and the redo stack is emptied. *)
Lemma edit_spec (value : string) (st : State) :
  value <> codeOf (activeTab st) st ->
  activeTab (edit value st) = activeTab st /\
  codeOf (activeTab st) (edit value st) = value /\
  redoStackOf (activeTab st) (edit value st) = [] /\
  ((hd_error (undoStackOf (activeTab st) st) = Some (codeOf (activeTab st) st) /\
    undoStackOf (activeTab st) (edit value st) = undoStackOf (activeTab st) st)
   \/
   (hd_error (undoStackOf (activeTab st) st) <> Some (codeOf (activeTab st) st) /\
    undoStackOf (activeTab st) (edit value st)
    = firstn MAX_UNDO_STACK_SIZE
        (codeOf (activeTab st) st :: undoStackOf (activeTab st) st))).
Proof.
  intros Hv. open_state st.
  destruct tab; unfold_handlers; rewrite truncate_firstn; st_cbn;
    rewrite (proj2 (String.eqb_neq _ _) Hv); st_cbn;
    match goal with
    | |- context [hd_error ?stack] => destruct stack as [|top stack']
    end; st_cbn;
    try (repeat split; right; split; [discriminate | reflexivity]);
    match goal with
    | |- context [String.eqb ?t ?c] =>
        destruct (String.eqb t c) eqn:E;
        [ apply String.eqb_eq in E; subst t | apply String.eqb_neq in E ]
    end; st_cbn; repeat split;
    solve [ left; split; reflexivity
          | right; split; [congruence | reflexivity] ].
Qed.

Lemma undo_spec (st : State) (lastState : string) (restOfStack : list string) :
  undoStackOf (activeTab st) st = lastState :: restOfStack ->
  activeTab (handleUndo st) = activeTab st /\
  codeOf (activeTab st) (handleUndo st) = lastState /\
  undoStackOf (activeTab st) (handleUndo st) = restOfStack /\
  redoStackOf (activeTab st) (handleUndo st)
  = firstn MAX_UNDO_STACK_SIZE
      (codeOf (activeTab st) st :: redoStackOf (activeTab st) st).
Proof.
  open_state st. destruct tab; st_cbn; intros ->; unfold_handlers; st_cbn;
    repeat split.
Qed.

Lemma redo_spec (st : State) (nextState : string) (restOfStack : list string) :
  redoStackOf (activeTab st) st = nextState :: restOfStack ->
  activeTab (handleRedo st) = activeTab st /\
  codeOf (activeTab st) (handleRedo st) = nextState /\
  redoStackOf (activeTab st) (handleRedo st) = restOfStack /\
  undoStackOf (activeTab st) (handleRedo st)
  = firstn MAX_UNDO_STACK_SIZE
      (codeOf (activeTab st) st :: undoStackOf (activeTab st) st).
Proof.
  open_state st. destruct tab; st_cbn; intros ->; unfold_handlers; st_cbn;
    repeat split.
Qed.

Lemma undo_empty (st : State) :
  undoStackOf (activeTab st) st = [] -> handleUndo st = st.
Proof.
  open_state st. destruct tab; st_cbn; intros ->; reflexivity.
Qed.

Lemma redo_empty (st : State) :
  redoStackOf (activeTab st) st = [] -> handleRedo st = st.
Proof.
  open_state st. destruct tab; st_cbn; intros ->; reflexivity.
Qed.

Lemma edit_same (st : State) : edit (codeOf (activeTab st) st) st = st.
Proof.
  open_state st. destruct tab; unfold_handlers; st_cbn;
    now rewrite String.eqb_refl.
Qed.

Lemma hd_firstn_cons (x : string) (l : list string) :
  hd_error (firstn MAX_UNDO_STACK_SIZE (x :: l)) = Some x.
Proof. reflexivity. Qed.

Lemma redo_disabled_of_empty (st : State) :
  redoStackOf (activeTab st) st = [] -> isRedoDisabled st = true.
Proof.
  open_state st. unfold isRedoDisabled. destruct view, tab; st_cbn;
    intros ->; reflexivity.
Qed.

(** A change to the value just set changes nothing more. *)
Lemma edit_twice (value : string) (st : State) :
  edit value (edit value st) = edit value st.
Proof.
  destruct (String.eqb value (codeOf (activeTab st) st)) eqn:E.
  - apply String.eqb_eq in E. subst value. now rewrite !edit_same.
  - apply String.eqb_neq in E.
    destruct (edit_spec value st E) as (Ht & Hc & _).
    rewrite <- Hc at 1. rewrite <- Ht at 1. apply edit_same.
Qed.

Lemma firstn_evicts (x : string) (l : list string) :
  length l = MAX_UNDO_STACK_SIZE ->
  firstn MAX_UNDO_STACK_SIZE (x :: l) = x :: removelast l.
Proof.
  intros Hl. rewrite removelast_firstn_len, Hl. reflexivity.
Qed.

End History.

(** C2: after a change to A, a change to B and an undo, the document on
    screen holds A again and B is on top of its redo stack, whenever A
    differs from B and from the text the document started with. *)
Theorem commit_commit_undo (st : App.State) (A B : string) :
  A <> B ->
  A <> App.codeOf (App.activeTab st) st ->
  let st' := App.handleUndo (App.edit B (App.edit A st)) in
  App.codeOf (App.activeTab st) st' = A /\
  hd_error (App.redoStackOf (App.activeTab st) st') = Some B.
Proof.
  intros HAB HA st'. subst st'.
  destruct (edit_spec A st HA) as (Ht1 & Hc1 & Hr1 & Hu1).
  set (st1 := App.edit A st) in *.
  assert (Hhd1 : hd_error (App.undoStackOf (App.activeTab st) st1)
                 = Some (App.codeOf (App.activeTab st) st)).
  { destruct Hu1 as [[Hhd ->] | [_ ->]]; [exact Hhd | apply hd_firstn_cons]. }
  assert (HB : B <> App.codeOf (App.activeTab st1) st1)
    by (rewrite Ht1, Hc1; congruence).
  destruct (edit_spec B st1 HB) as (Ht2 & Hc2 & Hr2 & Hu2).
  set (st2 := App.edit B st1) in *.
  rewrite Ht1 in *. rewrite Hc1 in Hu2.
  destruct Hu2 as [[Hhd _] | [_ Hu2]]; [congruence|].
  assert (Hstack : App.undoStackOf (App.activeTab st2) st2
                   = A :: firstn 49 (App.undoStackOf (App.activeTab st) st1))
    by (rewrite Ht2, Hu2; reflexivity).
  destruct (undo_spec st2 _ _ Hstack) as (Ht3 & Hc3 & _ & Hr3).
  rewrite Ht2 in *. rewrite Hc3, Hr3, Hc2, Hr2. split; reflexivity.
Qed.

Lemma commit_commit_undo_witness :
  let st := App.Build_State "<div>hi</div>" "" "" App.html App.editor ""
              App.noResults "" [] [] [] [] [] [] 0 in
  let st' := App.handleUndo (App.edit "B" (App.edit "A" st)) in
  App.codeOf App.html st' = "A" /\
  hd_error (App.redoStackOf App.html st') = Some "B".
Proof.
  intros st. apply (commit_commit_undo st "A" "B"); discriminate.
Defined.

(** C3: with a non-empty undo stack, an undo followed at once by a redo
    leaves the document on screen with the text it had before. *)
Theorem undo_redo_restores (st : App.State) :
  App.undoStackOf (App.activeTab st) st <> [] ->
  App.codeOf (App.activeTab st) (App.handleRedo (App.handleUndo st))
  = App.codeOf (App.activeTab st) st.
Proof.
  intros Hne.
  destruct (App.undoStackOf (App.activeTab st) st) as [|lastState rest] eqn:Hu;
    [congruence|].
  destruct (undo_spec st _ _ Hu) as (Ht & _ & _ & Hr).
  assert (Hr' : App.redoStackOf (App.activeTab (App.handleUndo st))
                  (App.handleUndo st)
                = App.codeOf (App.activeTab st) st
                  :: firstn 49 (App.redoStackOf (App.activeTab st) st))
    by (rewrite Ht, Hr; reflexivity).
  destruct (redo_spec _ _ _ Hr') as (_ & Hc & _).
  now rewrite Ht in Hc.
Qed.

Lemma undo_redo_restores_witness :
  let st := App.Build_State "<div>hello</div>" "" "" App.html App.editor ""
              App.noResults "" ["<div>hi</div>"] [] [] [] [] [] 0 in
  App.undoStackOf (App.activeTab st) st <> [] /\
  App.codeOf App.html (App.handleRedo (App.handleUndo st)) = "<div>hello</div>".
Proof.
  intros st. split; [discriminate|].
  apply (undo_redo_restores st). discriminate.
Defined.

(** C7: a change to the text the document already holds does nothing; a
    change to a new text pushes nothing when the old text is already on
    top of the undo stack; and the same change made twice in a row does
    not grow the undo stack the second time. *)
Theorem commit_idempotent (st : App.State) (value : string) :
  App.edit (App.codeOf (App.activeTab st) st) st = st /\
  (value <> App.codeOf (App.activeTab st) st ->
   hd_error (App.undoStackOf (App.activeTab st) st)
   = Some (App.codeOf (App.activeTab st) st) ->
   App.undoStackOf (App.activeTab st) (App.edit value st)
   = App.undoStackOf (App.activeTab st) st) /\
  App.undoStackOf (App.activeTab st) (App.edit value (App.edit value st))
  = App.undoStackOf (App.activeTab st) (App.edit value st).
Proof.
  split; [apply edit_same|]. split.
  - intros Hv Hhd.
    destruct (edit_spec value st Hv) as (_ & _ & _ & [[_ Hu] | [Hn _]]);
      [exact Hu | contradiction].
  - now rewrite edit_twice.
Qed.

Lemma commit_idempotent_witness :
  let st := App.Build_State "b" "" "" App.html App.editor ""
              App.noResults "" ["b"; "a"] [] [] [] [] [] 0 in
  App.undoStackOf App.html (App.edit "c" st) = ["b"; "a"].
Proof.
  intros st.
  apply (proj1 (proj2 (commit_idempotent st "c"))); [discriminate | reflexivity].
Defined.

(** C8: a change to a text other than the current one leaves the redo
    stack of the document on screen empty, so that the redo button is
    disabled and a redo does nothing; in particular after an undo. *)
Theorem edit_clears_redo (st : App.State) (value : string) :
  value <> App.codeOf (App.activeTab st) st ->
  App.redoStackOf (App.activeTab st) (App.edit value st) = [] /\
  App.isRedoDisabled (App.edit value st) = true /\
  App.handleRedo (App.edit value st) = App.edit value st.
Proof.
  intros Hv. destruct (edit_spec value st Hv) as (Ht & _ & Hr & _).
  rewrite <- Ht in Hr at 1.
  split; [now rewrite <- Ht at 1|].
  split; [now apply redo_disabled_of_empty | now apply redo_empty].
Qed.

Lemma edit_clears_redo_witness :
  let st := App.handleUndo
              (App.Build_State "<div>hello</div>" "" "" App.html App.editor ""
                 App.noResults "" ["<div>hi</div>"] [] [] [] [] [] 0) in
  App.redoStackOf App.html st = ["<div>hello</div>"] /\
  App.redoStackOf App.html (App.edit "<p>new</p>" st) = [] /\
  App.isRedoDisabled (App.edit "<p>new</p>" st) = true /\
  App.handleRedo (App.edit "<p>new</p>" st) = App.edit "<p>new</p>" st.
Proof.
  intros st. split; [reflexivity|].
  apply (edit_clears_redo st "<p>new</p>"). discriminate.
Defined.

(** ** The bound on the stacks *)

Section Bound.
Import Js App.

Lemma withinBound_iff (st : State) :
  withinBound st <->
  (length (htmlUndoStack st) <= MAX_UNDO_STACK_SIZE /\
   length (cssUndoStack st) <= MAX_UNDO_STACK_SIZE /\
   length (jsUndoStack st) <= MAX_UNDO_STACK_SIZE /\
   length (htmlRedoStack st) <= MAX_UNDO_STACK_SIZE /\
   length (cssRedoStack st) <= MAX_UNDO_STACK_SIZE /\
   length (jsRedoStack st) <= MAX_UNDO_STACK_SIZE)%nat.
Proof.
  unfold withinBound. split.
  - intros H. pose proof (H html). pose proof (H css). pose proof (H js).
    cbn [undoStackOf redoStackOf] in *. tauto.
  - intros H tab. destruct tab; cbn [undoStackOf redoStackOf]; tauto.
Qed.

Lemma edit_bound (value : string) (st : State) :
  withinBound st -> withinBound (edit value st).
Proof.
  rewrite !withinBound_iff. open_state st.
  destruct tab; unfold_handlers; rewrite truncate_firstn; st_cbn;
    intros (H1 & H2 & H3 & H4 & H5 & H6);
    match goal with
    | |- context [String.eqb value ?c] => destruct (String.eqb value c)
    end; st_cbn; try bound_solve;
    match goal with
    | |- context [match ?stack with [] => false | _ :: _ => _ end] =>
        destruct stack as [|top stack']
    end; st_cbn; try bound_solve;
    match goal with
    | |- context [String.eqb ?t ?c] => destruct (String.eqb t c)
    end; st_cbn; bound_solve.
Qed.

Lemma undo_bound (st : State) : withinBound st -> withinBound (handleUndo st).
Proof.
  rewrite !withinBound_iff. open_state st.
  destruct tab; unfold_handlers;
    intros (H1 & H2 & H3 & H4 & H5 & H6);
    match goal with
    | |- context [match ?stack with [] => _ | _ :: _ => _ end] =>
        destruct stack as [|top stack']
    end; st_cbn; bound_solve.
Qed.

Lemma redo_bound (st : State) : withinBound st -> withinBound (handleRedo st).
Proof.
  rewrite !withinBound_iff. open_state st.
  destruct tab; unfold_handlers;
    intros (H1 & H2 & H3 & H4 & H5 & H6);
    match goal with
    | |- context [match ?stack with [] => _ | _ :: _ => _ end] =>
        destruct stack as [|top stack']
    end; st_cbn; bound_solve.
Qed.

Lemma selectTab_bound (selected : ActiveTab) (st : State) :
  withinBound st -> withinBound (selectTab selected st).
Proof.
  rewrite !withinBound_iff. open_state st. st_cbn. tauto.
Qed.

Lemma step_bound (st : State) (e : Event) :
  withinBound st -> withinBound (step st e).
Proof.
  destruct e; cbn [step];
    auto using edit_bound, undo_bound, redo_bound, selectTab_bound.
Qed.

Lemma run_bound (events : list Event) :
  forall st, withinBound st -> withinBound (run events st).
Proof.
  unfold run. induction events as [|e events IH]; intros st H; cbn [fold_left].
  - exact H.
  - apply IH. now apply step_bound.
Qed.

End Bound.

(** C6: whatever changes, undos, redos and tab selections are made, no
    undo stack and no redo stack ever holds more than 50 entries; and a
    push onto a stack of 50 entries (by a change, an undo or a redo) drops
    the oldest entry. *)
Theorem stacks_bounded (events : list App.Event) (st : App.State) :
  App.withinBound st ->
  let st' := App.run events st in
  let tab := App.activeTab st' in
  App.withinBound st' /\
  (forall value,
     value <> App.codeOf tab st' ->
     hd_error (App.undoStackOf tab st') <> Some (App.codeOf tab st') ->
     length (App.undoStackOf tab st') = App.MAX_UNDO_STACK_SIZE ->
     App.undoStackOf tab (App.edit value st')
     = App.codeOf tab st' :: removelast (App.undoStackOf tab st')) /\
  (App.undoStackOf tab st' <> [] ->
   length (App.redoStackOf tab st') = App.MAX_UNDO_STACK_SIZE ->
   App.redoStackOf tab (App.handleUndo st')
   = App.codeOf tab st' :: removelast (App.redoStackOf tab st')) /\
  (App.redoStackOf tab st' <> [] ->
   length (App.undoStackOf tab st') = App.MAX_UNDO_STACK_SIZE ->
   App.undoStackOf tab (App.handleRedo st')
   = App.codeOf tab st' :: removelast (App.undoStackOf tab st')).
Proof.
  intros H st' tab. split; [now apply run_bound|].
  clearbody st'. subst tab. repeat split.
  - intros value Hv Hhd Hlen.
    destruct (edit_spec value st' Hv) as (_ & _ & _ & [[Hhd' _] | [_ ->]]);
      [contradiction | now apply firstn_evicts].
  - intros Hne Hlen.
    destruct (App.undoStackOf (App.activeTab st') st') as [|x rest] eqn:Hu;
      [congruence|].
    destruct (undo_spec st' _ _ Hu) as (_ & _ & _ & ->).
    now apply firstn_evicts.
  - intros Hne Hlen.
    destruct (App.redoStackOf (App.activeTab st') st') as [|x rest] eqn:Hr;
      [congruence|].
    destruct (redo_spec st' _ _ Hr) as (_ & _ & _ & ->).
    now apply firstn_evicts.
Qed.

Lemma stacks_bounded_witness :
  let st := App.Build_State "cur" "" "" App.css App.editor ""
              App.noResults "" (repeat "old" 49 ++ ["oldest"]) [] [] [] [] [] 0 in
  let events := [App.SelectTab App.html] in
  App.withinBound st /\
  App.withinBound (App.run events st) /\
  App.undoStackOf App.html (App.edit "new" (App.run events st))
  = "cur" :: repeat "old" 49.
Proof.
  intros st events.
  assert (H : App.withinBound st)
    by (intros []; split; apply Nat.leb_le; reflexivity).
  split; [exact H|].
  destruct (stacks_bounded events st H) as (Hb & Hpush & _).
  split; [exact Hb|].
  apply (Hpush "new"); [discriminate | discriminate | reflexivity].
Defined.

(** ** Search *)

Section SearchLoop.
Import Js App.
Local Open Scope nat_scope.

Lemma drop_drop (a b : nat) (s : string) : drop a (drop b s) = drop (b + a) s.
Proof.
  revert s. induction b as [|b IH]; intros s; [reflexivity|].
  destruct s as [|c s]; cbn [drop Nat.add].
  - now destruct a.
  - apply IH.
Qed.

Lemma length_drop (n : nat) (s : string) :
  String.length (drop n s) = String.length s - n.
Proof.
  revert s. induction n as [|n IH]; intros s; cbn [drop].
  - lia.
  - destruct s as [|c s]; cbn [String.length]; [reflexivity | apply IH].
Qed.

Lemma prefix_nonempty (t s : string) :
  t <> "" -> String.prefix t s = true -> 0 < String.length s.
Proof.
  intros Ht Hp. destruct s as [|c s]; cbn [String.length]; [|lia].
  destruct t; [congruence | discriminate].
Qed.

(** [findFirst] returns the least offset at which the term occurs. *)
Lemma findFirst_some (t : string) :
  forall s k, findFirst t s = Some k ->
    String.prefix t (drop k s) = true /\
    (forall j, j < k -> String.prefix t (drop j s) = false).
Proof.
  induction s as [|c s IH]; intros k; cbn [findFirst].
  - destruct (String.prefix t "") eqn:E; [|discriminate].
    intros [= <-]. split; [exact E | intros j Hj; lia].
  - destruct (String.prefix t (String c s)) eqn:E.
    + intros [= <-]. split; [exact E | intros j Hj; lia].
    + destruct (findFirst t s) as [k'|] eqn:Ef; [|discriminate].
      intros [= <-]. destruct (IH k' eq_refl) as [Hk Hlt].
      split; [exact Hk|].
      intros [|j] Hj; [exact E | apply Hlt; lia].
Qed.

Lemma findFirst_none (t : string) :
  forall s, findFirst t s = None ->
    forall j, String.prefix t (drop j s) = false.
Proof.
  induction s as [|c s IH]; cbn [findFirst].
  - destruct (String.prefix t "") eqn:E; [discriminate|].
    intros _ j. now destruct j.
  - destruct (String.prefix t (String c s)) eqn:E; [discriminate|].
    destruct (findFirst t s) eqn:Ef; [discriminate|].
    intros _ [|j]; [exact E | now apply IH].
Qed.

Lemma filter_seq_none (f : nat -> bool) (n : nat) :
  forall p, (forall j, j < n -> f (p + j) = false) -> filter f (seq p n) = [].
Proof.
  induction n as [|n IH]; intros p H; cbn [seq filter]; [reflexivity|].
  replace (f p) with false by (rewrite <- (H 0) by lia; f_equal; lia).
  apply IH. intros j Hj. rewrite <- (H (S j)) by lia. f_equal. lia.
Qed.

Lemma filter_seq_first (f : nat -> bool) (k : nat) :
  forall p n,
    (forall j, j < k -> f (p + j) = false) -> f (p + k) = true -> k < n ->
    filter f (seq p n) = (p + k) :: filter f (seq (p + k + 1) (n - k - 1)).
Proof.
  induction k as [|k IH]; intros p n Hlt Hk Hn.
  - destruct n as [|n]; [lia|]. cbn [seq filter].
    replace (p + 0) with p in * by lia. rewrite Hk.
    replace (p + 1) with (S p) by lia.
    replace (S n - 0 - 1) with n by lia. reflexivity.
  - destruct n as [|n]; [lia|]. cbn [seq filter].
    replace (f p) with false by (rewrite <- (Hlt 0) by lia; f_equal; lia).
    rewrite (IH (S p) n).
    + replace (S p + k) with (p + S k) by lia.
      replace (S n - S k - 1) with (n - k - 1) by lia. reflexivity.
    + intros j Hj. rewrite <- (Hlt (S j)) by lia. f_equal. lia.
    + rewrite <- Hk. f_equal. lia.
    + lia.
Qed.

Lemma indexOf_at (s t : string) (p : nat) :
  p <= String.length s ->
  indexOf s t (Z.of_nat p) =
  match findFirst t (drop p s) with
  | Some k => Z.of_nat (p + k)
  | None => (-1)%Z
  end.
Proof.
  intros Hp. unfold indexOf.
  replace (Z.to_nat (Z.min (Z.max (Z.of_nat p) 0) (Z.of_nat (String.length s))))
    with p by lia.
  reflexivity.
Qed.

(** The loop collects every offset of the term from its starting point on,
    and needs no more iterations than there are code units left, plus one. *)
Lemma searchLoop_spec (s t : string) :
  t <> "" ->
  forall fuel p acc,
    p <= String.length s ->
    String.length s - p < fuel ->
    searchLoop fuel s t (Z.of_nat p - 1) acc
    = Some (acc ++ map Z.of_nat
                     (filter (occursAt t s) (seq p (String.length s - p))))%list.
Proof.
  intros Ht. induction fuel as [|fuel IH]; intros p acc Hp Hfuel; [lia|].
  cbn [searchLoop].
  replace (Z.of_nat p - 1 + 1)%Z with (Z.of_nat p) by lia.
  rewrite indexOf_at by exact Hp.
  destruct (findFirst t (drop p s)) as [k|] eqn:Ef.
  - destruct (findFirst_some _ _ _ Ef) as [Hk Hlt].
    assert (Hlen : k < String.length s - p).
    { pose proof (prefix_nonempty _ _ Ht Hk) as H.
      rewrite !length_drop in H. lia. }
    replace (Z.of_nat (p + k) =? -1)%Z with false by (symmetry; apply Z.eqb_neq; lia).
    cbn [negb].
    replace (Z.of_nat (p + k)) with (Z.of_nat (p + k + 1) - 1)%Z at 1 by lia.
    rewrite IH by lia.
    rewrite (filter_seq_first (occursAt t s) k p (String.length s - p)).
    + rewrite <- app_assoc. cbn [app map].
      replace (String.length s - (p + k + 1))
        with (String.length s - p - k - 1) by lia.
      reflexivity.
    + intros j Hj. unfold occursAt. rewrite <- drop_drop. now apply Hlt.
    + unfold occursAt. now rewrite <- drop_drop.
    + exact Hlen.
  - cbn. rewrite filter_seq_none; [now rewrite app_nil_r|].
    intros j _. unfold occursAt. rewrite <- drop_drop.
    now apply findFirst_none.
Qed.

Lemma length_toLowerCase (s : string) :
  String.length (toLowerCase s) = String.length s.
Proof. induction s; cbn; congruence. Qed.

Lemma toLowerCase_nonempty (s : string) : s <> "" -> toLowerCase s <> "".
Proof. destruct s; [congruence | discriminate]. Qed.

Lemma isEmpty_false (s : string) : s <> "" -> isEmpty s = false.
Proof. destruct s; [congruence | reflexivity]. Qed.

End SearchLoop.

Section SearchHandler.
Import Js App.
Local Open Scope Z_scope.

Variable fuel : nat.
Variable attached : ActiveTab -> bool.

Lemma trim_nonempty (s : string) : trim s <> "" -> s <> "".
Proof. intros H ->. now apply H. Qed.

Lemma search_guards (st : State) :
  activeAppView st = editor ->
  attached (activeTab st) = true ->
  getCurrentCode st <> "" ->
  negb match getCurrentEditorRef st with
       | Some ref => attached ref
       | None => false
       end || isEmpty (getCurrentCode st) = false.
Proof.
  intros Hview Hatt Hcode. unfold getCurrentEditorRef.
  rewrite Hview, Hatt. now rewrite isEmpty_false.
Qed.

Lemma search_fresh (navigation : option Navigation) (st : State) :
  activeAppView st = editor ->
  attached (activeTab st) = true ->
  getCurrentCode st <> "" ->
  trim (searchTerm st) <> "" ->
  searchTerm st <> lastSearchedTerm st \/ navigation = None ->
  (String.length (getCurrentCode st) < fuel)%nat ->
  handleSearch fuel attached navigation st
  = let found := occurrences (toLowerCase (searchTerm st))
                   (toLowerCase (getCurrentCode st)) in
    Some (setSearchResults
            {| indices := found;
               currentResultIndex := if isNil found then -1 else 0 |}
            (setLastSearchedTerm (searchTerm st) st)).
Proof.
  intros Hview Hatt Hcode Hterm Hfresh Hfuel.
  unfold handleSearch. cbv zeta.
  rewrite search_guards by assumption.
  rewrite (isEmpty_false _ Hterm).
  replace (negb (searchTerm st =? lastSearchedTerm st)%string
           || match navigation with None => true | Some _ => false end)
    with true.
  2:{ destruct Hfresh as [Hne | ->].
      - apply String.eqb_neq in Hne. now rewrite Hne.
      - now rewrite orb_true_r. }
  change (-1) with (Z.of_nat 0 - 1).
  rewrite searchLoop_spec.
  - rewrite length_toLowerCase, Nat.sub_0_r. cbn [app].
    rewrite <- (length_toLowerCase (getCurrentCode st)).
    fold (occurrences (toLowerCase (searchTerm st))
            (toLowerCase (getCurrentCode st))).
    now destruct (occurrences _ _).
  - now apply toLowerCase_nonempty, trim_nonempty.
  - lia.
  - rewrite length_toLowerCase. lia.
Qed.

Lemma search_navigate (nav : Navigation) (st : State) :
  activeAppView st = editor ->
  attached (activeTab st) = true ->
  getCurrentCode st <> "" ->
  trim (searchTerm st) <> "" ->
  searchTerm st = lastSearchedTerm st ->
  indices (searchResults st) <> [] ->
  0 <= currentResultIndex (searchResults st) ->
  handleSearch fuel attached (Some nav) st
  = let len := Z.of_nat (length (indices (searchResults st))) in
    Some (setSearchResults
            {| indices := indices (searchResults st);
               currentResultIndex :=
                 match nav with
                 | next => (currentResultIndex (searchResults st) + 1) mod len
                 | prev => (currentResultIndex (searchResults st) - 1 + len) mod len
                 end |} st).
Proof.
  intros Hview Hatt Hcode Hterm Hsame Hne Hidx.
  unfold handleSearch. cbv zeta.
  rewrite search_guards by assumption.
  rewrite (isEmpty_false _ Hterm).
  rewrite Hsame, String.eqb_refl. cbn [negb orb].
  destruct (indices (searchResults st)) as [|i rest] eqn:Hi; [congruence|].
  cbn [length Nat.ltb Nat.leb].
  destruct nav; rewrite Z.rem_mod_nonneg by lia; reflexivity.
Qed.

End SearchHandler.

(** C4, as amended: when an editor element is attached, the text on
    screen is not empty and the term is not blank, a search with a changed
    term or without a direction recomputes the offsets of all occurrences
    of the lower-cased term in the lower-cased text, overlapping ones
    included (each scan resumes one code unit after the start of the
    previous match), records the term, and selects the first match, or
    none when there is no match. *)
Theorem search_recomputes (fuel : nat) (attached : App.ActiveTab -> bool)
  (navigation : option App.Navigation) (st : App.State) :
  App.activeAppView st = App.editor ->
  attached (App.activeTab st) = true ->
  App.getCurrentCode st <> "" ->
  Js.trim (App.searchTerm st) <> "" ->
  App.searchTerm st <> App.lastSearchedTerm st \/ navigation = None ->
  (String.length (App.getCurrentCode st) < fuel)%nat ->
  let found := App.occurrences (Js.toLowerCase (App.searchTerm st))
                 (Js.toLowerCase (App.getCurrentCode st)) in
  App.handleSearch fuel attached navigation st
  = Some (App.setSearchResults
            {| App.indices := found;
               App.currentResultIndex := if App.isNil found then (-1)%Z else 0%Z |}
            (App.setLastSearchedTerm (App.searchTerm st) st)).
Proof. intros. now apply search_fresh. Qed.

Lemma search_recomputes_witness :
  let st := App.Build_State "aXaxA" "" "" App.html App.editor "Ax"
              App.noResults "" [] [] [] [] [] [] 0 in
  App.handleSearch 6 (fun _ => true) None st
  = Some (App.setSearchResults
            {| App.indices := [0%Z; 2%Z]; App.currentResultIndex := 0%Z |}
            (App.setLastSearchedTerm "Ax" st)).
Proof.
  intros st.
  apply (search_recomputes 6 (fun _ => true) None st);
    solve [ reflexivity | discriminate | now right | cbn; lia ].
Defined.

(** C4, as stated, fails: on the text aaa the term aa is reported at the
    offsets 0 and 1, the second inside the first match, whereas a scan
    that resumes at the end of the previous match reports offset 0 only. *)
Lemma search_reports_overlaps :
  let st := App.Build_State "aaa" "" "" App.html App.editor "aa"
              App.noResults "" [] [] [] [] [] [] 0 in
  option_map (fun st' => App.indices (App.searchResults st'))
    (App.handleSearch 4 (fun _ => true) None st) = Some [0%Z; 1%Z] /\
  App.scanFromMatchEnd 4 (Js.toLowerCase "aaa") (Js.toLowerCase "aa") 0 []
  = Some [0%Z] /\
  option_map (fun st' => App.indices (App.searchResults st'))
    (App.handleSearch 4 (fun _ => true) None st)
  <> App.scanFromMatchEnd 4 (Js.toLowerCase "aaa") (Js.toLowerCase "aa") 0 [].
Proof.
  intros st. split; [|split]; vm_compute; [reflexivity | reflexivity | discriminate].
Qed.

(** C10: on the text <div><div> a search for div finds the offsets 1 and 6
    and selects the first; a next with the term unchanged selects the
    second, and one more next selects the first again.  In general a next
    or prev with the term unchanged moves the selected index by one,
    modulo the number of matches. *)
Theorem search_scenario (fuel : nat) (attached : App.ActiveTab -> bool)
  (st : App.State) :
  App.activeAppView st = App.editor ->
  attached (App.activeTab st) = true ->
  App.getCurrentCode st = "<div><div>" ->
  App.searchTerm st = "div" ->
  (10 < fuel)%nat ->
  (exists st1 st2 st3,
     App.handleSearch fuel attached None st = Some st1 /\
     App.searchResults st1
     = {| App.indices := [1%Z; 6%Z]; App.currentResultIndex := 0%Z |} /\
     App.handleSearch fuel attached (Some App.next) st1 = Some st2 /\
     App.searchResults st2
     = {| App.indices := [1%Z; 6%Z]; App.currentResultIndex := 1%Z |} /\
     App.handleSearch fuel attached (Some App.next) st2 = Some st3 /\
     App.searchResults st3
     = {| App.indices := [1%Z; 6%Z]; App.currentResultIndex := 0%Z |}) /\
  (forall nav st',
     App.activeAppView st' = App.editor ->
     attached (App.activeTab st') = true ->
     App.getCurrentCode st' <> "" ->
     Js.trim (App.searchTerm st') <> "" ->
     App.searchTerm st' = App.lastSearchedTerm st' ->
     App.indices (App.searchResults st') <> [] ->
     (0 <= App.currentResultIndex (App.searchResults st'))%Z ->
     let len := Z.of_nat (length (App.indices (App.searchResults st'))) in
     let index := App.currentResultIndex (App.searchResults st') in
     App.handleSearch fuel attached (Some nav) st'
     = Some (App.setSearchResults
               {| App.indices := App.indices (App.searchResults st');
                  App.currentResultIndex :=
                    match nav with
                    | App.next => ((index + 1) mod len)%Z
                    | App.prev => ((index - 1 + len) mod len)%Z
                    end |} st')).
Proof.
  intros Hview Hatt Hcode Hterm Hfuel.
  split; [|intros; now apply search_navigate].
  assert (H1 : App.handleSearch fuel attached None st
               = Some (App.setSearchResults
                         {| App.indices := [1%Z; 6%Z];
                            App.currentResultIndex := 0%Z |}
                         (App.setLastSearchedTerm "div" st))).
  { rewrite search_fresh; try assumption.
    - rewrite Hcode, Hterm. reflexivity.
    - rewrite Hcode. discriminate.
    - rewrite Hterm. discriminate.
    - now right.
    - rewrite Hcode. cbn. lia. }
  set (st1 := App.setSearchResults
                {| App.indices := [1%Z; 6%Z]; App.currentResultIndex := 0%Z |}
                (App.setLastSearchedTerm "div" st)) in *.
  set (st2 := App.setSearchResults
                {| App.indices := [1%Z; 6%Z]; App.currentResultIndex := 1%Z |}
                st1).
  set (st3 := App.setSearchResults
                {| App.indices := [1%Z; 6%Z]; App.currentResultIndex := 0%Z |}
                st2).
  exists st1, st2, st3.
  assert (Hst1 : App.activeAppView st1 = App.editor /\
                 attached (App.activeTab st1) = true /\
                 App.getCurrentCode st1 = "<div><div>" /\
                 App.searchTerm st1 = "div" /\
                 App.lastSearchedTerm st1 = "div").
  { subst st1. open_state st. unfold App.getCurrentCode in *. st_cbn.
    repeat split; assumption. }
  destruct Hst1 as (V1 & A1 & C1 & T1 & L1).
  assert (Hst2 : App.activeAppView st2 = App.editor /\
                 attached (App.activeTab st2) = true /\
                 App.getCurrentCode st2 = "<div><div>" /\
                 App.searchTerm st2 = "div" /\
                 App.lastSearchedTerm st2 = "div").
  { subst st2. destruct st1. unfold App.getCurrentCode in *. st_cbn.
    repeat split; assumption. }
  destruct Hst2 as (V2 & A2 & C2 & T2 & L2).
  split; [exact H1|]. split; [subst st1; now destruct st|].
  split.
  { rewrite search_navigate; try assumption.
    - subst st1. destruct st. reflexivity.
    - rewrite C1. discriminate.
    - rewrite T1. discriminate.
    - congruence.
    - subst st1. destruct st. discriminate.
    - subst st1. destruct st. cbn. lia. }
  split; [subst st2; now destruct st1|].
  split.
  { rewrite search_navigate; try assumption.
    - subst st2. destruct st1. reflexivity.
    - rewrite C2. discriminate.
    - rewrite T2. discriminate.
    - congruence.
    - subst st2. destruct st1. discriminate.
    - subst st2. destruct st1. cbn. lia. }
  subst st3. now destruct st2.
Qed.

Lemma search_scenario_witness :
  let st := App.Build_State "<div><div>" "" "" App.html App.editor "div"
              App.noResults "" [] [] [] [] [] [] 0 in
  exists st1 st2 st3,
    App.handleSearch 11 (fun _ => true) None st = Some st1 /\
    App.searchResults st1
    = {| App.indices := [1%Z; 6%Z]; App.currentResultIndex := 0%Z |} /\
    App.handleSearch 11 (fun _ => true) (Some App.next) st1 = Some st2 /\
    App.searchResults st2
    = {| App.indices := [1%Z; 6%Z]; App.currentResultIndex := 1%Z |} /\
    App.handleSearch 11 (fun _ => true) (Some App.next) st2 = Some st3 /\
    App.searchResults st3
    = {| App.indices := [1%Z; 6%Z]; App.currentResultIndex := 0%Z |}.
Proof.
  intros st.
  apply (search_scenario 11 (fun _ => true) st); solve [ reflexivity | lia ].
Defined.

(** ** Import *)

(** C5: a failed import is not reported.  On the page of a browser, where
    the parser builds a document from every text, a file whose read fails
    changes nothing and shows nothing (no alert, no log: the state and the
    effects are those before), and every file that is read ends in the
    success alert as the only effect, without raising: no chosen file
    makes the import show its failure alert. *)
Theorem import_failure_unreported (D : App.Dom) (w : App.World) :
  App.browserLike D ->
  (forall e : App.exn,
     App.onchange (Some (App.onerror e)) w = (w, App.Ok tt)) /\
  (forall fileContent : string, exists st',
     App.onchange (Some (App.onload fileContent)) w
     = ({| App.state := st';
           App.effects := (App.effects w
                           ++ [App.alert App.importSucceeded])%list |},
        App.Ok tt)).
Proof.
  intros (Hparse & Hget & Hinner & Htext). split; [reflexivity|].
  intros fileContent. unfold App.onchange.
  destruct (Hparse fileContent) as [doc Hdoc].
  destruct (Hget doc "project-html-content") as [[htmlElement|] Hh];
    destruct (Hget doc "project-css") as [[cssElement|] Hc];
    destruct (Hget doc "project-js") as [[jsElement|] Hj];
    try destruct (Hinner htmlElement) as [importedHtml Hih];
    try destruct (Htext cssElement) as [importedCss Hic];
    try destruct (Htext jsElement) as [importedJs Hij];
    run_import; eexists; reflexivity.
Qed.

Lemma import_failure_unreported_witness :
  let w := {| App.state :=
                App.Build_State "<p>old</p>" "p{}" "run()" App.css App.editor ""
                  App.noResults "" ["<p>ol</p>"] [] [] [] [] ["go()"] 3;
              App.effects := [] |} in
  @App.onchange App.trialDom (Some (App.onerror "NotReadableError")) w
  = (w, App.Ok tt).
Proof.
  intros w.
  apply (proj1 (import_failure_unreported App.trialDom w
                  (conj (fun fileContent => ex_intro _ _ eq_refl)
                     (conj (fun doc id => ex_intro _ _ eq_refl)
                        (conj (fun el => ex_intro _ _ eq_refl)
                              (fun el => ex_intro _ _ eq_refl)))))).
Defined.

(** C9: when the parsed document has no element with the script
    identifier, and the body and style elements are there, the import
    succeeds: the script text becomes the empty string, the markup and
    style texts are the ones read, all stacks are emptied, the success
    alert is the only effect and nothing is raised. *)
Theorem import_without_script (D : App.Dom) (fileContent : string)
  (w : App.World) (doc : App.Document) (htmlElement cssElement : App.Element)
  (importedHtml importedCss : string) :
  App.parseFromString fileContent "text/html" = App.Ok doc ->
  App.getElementById doc "project-js" = App.Ok None ->
  App.getElementById doc "project-html-content" = App.Ok (Some htmlElement) ->
  App.innerHTML htmlElement = App.Ok importedHtml ->
  App.getElementById doc "project-css" = App.Ok (Some cssElement) ->
  App.textContent cssElement = App.Ok importedCss ->
  let (w', result) := App.handleImportProject fileContent w in
  result = App.Ok tt /\
  App.effects w' = (App.effects w ++ [App.alert App.importSucceeded])%list /\
  App.jsCode (App.state w') = "" /\
  App.htmlCode (App.state w') = importedHtml /\
  App.cssCode (App.state w') = importedCss /\
  (forall tab, App.undoStackOf tab (App.state w') = [] /\
               App.redoStackOf tab (App.state w') = []).
Proof.
  intros Hp Hj Hh Hih Hc Hic.
  run_import. destruct (App.state w).
  unfold App.clearAllUndoRedoStacks. st_cbn.
  repeat split;
    try (destruct importedHtml; reflexivity);
    try (destruct importedCss; reflexivity);
    destruct tab; reflexivity.
Qed.

Lemma import_without_script_witness :
  let w := {| App.state :=
                App.Build_State "<p>old</p>" "p{}" "run()" App.css App.editor ""
                  App.noResults "" ["<p>ol</p>"] [] [] [] [] ["go()"] 3;
              App.effects := [] |} in
  let (w', result) := @App.handleImportProject App.trialDom "<p>new</p>" w in
  result = App.Ok tt /\
  App.effects w' = [App.alert App.importSucceeded] /\
  App.jsCode (App.state w') = "" /\
  App.htmlCode (App.state w') = "<p>new</p>" /\
  App.cssCode (App.state w') = "p{}" /\
  (forall tab, App.undoStackOf tab (App.state w') = [] /\
               App.redoStackOf tab (App.state w') = []).
Proof.
  intros w.
  apply (import_without_script App.trialDom "<p>new</p>" w
           [("project-html-content", "<p>new</p>"); ("project-css", "p{}")]
           "<p>new</p>" "p{}" "<p>new</p>" "p{}");
    reflexivity.
Defined.

(** * Further properties *)

(** ** History: round trips and independence of the documents *)

Section MoreHistory.
Import Js App Docs.

Lemma tab_eq_dec (a b : ActiveTab) : {a = b} + {a <> b}.
Proof. decide equality. Qed.

Lemma firstn_within {A : Type} (n : nat) (l : list A) :
  length l <= n -> firstn n l = l.
Proof. intros H. now apply firstn_all2. Qed.

Lemma firstn_cons_within (x : string) (l : list string) :
  length l < MAX_UNDO_STACK_SIZE ->
  firstn MAX_UNDO_STACK_SIZE (x :: l) = x :: l.
Proof. intros H. apply firstn_within. cbn [length]. lia. Qed.

Lemma edit_top (value : string) (st : State) :
  value <> codeOf (activeTab st) st ->
  exists rest,
    undoStackOf (activeTab st) (edit value st)
    = codeOf (activeTab st) st :: rest.
Proof.
  intros Hv.
  destruct (edit_spec value st Hv) as (_ & _ & _ & [[Hhd ->] | [_ ->]]).
  - destruct (undoStackOf (activeTab st) st) as [|top rest]; [discriminate|].
    injection Hhd as ->. now exists rest.
  - now exists (firstn 49 (undoStackOf (activeTab st) st)).
Qed.

Lemma key_undo (st : State) (x : string) (rest : list string) :
  undoStackOf (activeTab st) st = x :: rest ->
  editorUpdateKey (handleUndo st) = (editorUpdateKey st + 1)%Z.
Proof.
  open_state st. destruct tab; st_cbn; intros ->; reflexivity.
Qed.

Lemma key_redo (st : State) (x : string) (rest : list string) :
  redoStackOf (activeTab st) st = x :: rest ->
  editorUpdateKey (handleRedo st) = (editorUpdateKey st + 1)%Z.
Proof.
  open_state st. destruct tab; st_cbn; intros ->; reflexivity.
Qed.

Lemma undo_then_redo_code (st : State) :
  undoStackOf (activeTab st) st <> [] ->
  codeOf (activeTab st) (handleRedo (handleUndo st)) = codeOf (activeTab st) st.
Proof.
  intros Hne.
  destruct (undoStackOf (activeTab st) st) as [|x rest] eqn:Hu; [congruence|].
  destruct (undo_spec st _ _ Hu) as (Ht & _ & _ & Hr).
  rewrite <- Ht in Hr at 1. unfold MAX_UNDO_STACK_SIZE in Hr.
  cbn [firstn] in Hr.
  destruct (redo_spec _ _ _ Hr) as (_ & Hc & _).
  now rewrite Ht in Hc.
Qed.

Lemma redo_then_undo_code (st : State) :
  redoStackOf (activeTab st) st <> [] ->
  codeOf (activeTab st) (handleUndo (handleRedo st)) = codeOf (activeTab st) st.
Proof.
  intros Hne.
  destruct (redoStackOf (activeTab st) st) as [|x rest] eqn:Hr; [congruence|].
  destruct (redo_spec st _ _ Hr) as (Ht & _ & _ & Hu).
  rewrite <- Ht in Hu at 1. unfold MAX_UNDO_STACK_SIZE in Hu.
  cbn [firstn] in Hu.
  destruct (undo_spec _ _ _ Hu) as (_ & Hc & _).
  now rewrite Ht in Hc.
Qed.

(** The documents of the tabs that are not on screen. *)
Lemma step_frame (st : State) (e : Event) (other : ActiveTab) :
  other <> activeTab st \/ (exists selected, e = SelectTab selected) ->
  sameDocument other st (step st e).
Proof.
  unfold sameDocument. intros H. destruct e as [value| | |selected];
    cbn [step].
  - destruct H as [H | [? ?]]; [|discriminate].
    open_state st. cbn [activeTab] in H.
    destruct other, tab; try congruence; unfold_handlers;
      rewrite truncate_firstn; split_tests; repeat split.
  - destruct H as [H | [? ?]]; [|discriminate].
    open_state st. cbn [activeTab] in H.
    destruct other, tab; try congruence; unfold_handlers;
      split_tests; repeat split.
  - destruct H as [H | [? ?]]; [|discriminate].
    open_state st. cbn [activeTab] in H.
    destruct other, tab; try congruence; unfold_handlers;
      split_tests; repeat split.
  - open_state st. destruct other; st_cbn; repeat split.
Qed.

Lemma dn_tail (a : string) (l : list string) :
  distinctNeighbours (a :: l) -> distinctNeighbours l.
Proof. destruct l; cbn; tauto. Qed.

Lemma dn_firstn (n : nat) :
  forall l, distinctNeighbours l -> distinctNeighbours (firstn n l).
Proof.
  induction n as [|n IH]; intros l H; [exact I|].
  destruct l as [|a l]; [exact I|].
  cbn [firstn]. specialize (IH l (dn_tail _ _ H)).
  destruct l as [|b l]; [now destruct n|].
  destruct n as [|n]; [exact I|].
  cbn [firstn] in *. cbn in H. cbn. tauto.
Qed.

Lemma dn_cons (a : string) (l : list string) :
  hd_error l <> Some a -> distinctNeighbours l -> distinctNeighbours (a :: l).
Proof.
  destruct l as [|b l]; cbn; [tauto|]. intros Hn H. split; [congruence | exact H].
Qed.

Lemma dn_head (a : string) (l : list string) :
  distinctNeighbours (a :: l) -> hd_error l <> Some a.
Proof. destruct l as [|b l]; cbn; [discriminate|]. intros [H _]. congruence. Qed.

Lemma step_tidy (st : State) (e : Event) : tidy st -> tidy (step st e).
Proof.
  intros H tab.
  destruct (tab_eq_dec tab (activeTab st)) as [->|Hneq].
  2:{ destruct (step_frame st e tab (or_introl Hneq)) as (-> & -> & ->).
      apply H. }
  destruct (H (activeTab st)) as [Hu Hr].
  destruct e as [value| | |selected]; cbn [step].
  - destruct (String.eqb value (codeOf (activeTab st) st)) eqn:E.
    + apply String.eqb_eq in E. subst value. rewrite edit_same. now split.
    + apply String.eqb_neq in E.
      destruct (edit_spec value st E) as (_ & -> & -> & Hcases).
      split; [|exact I].
      destruct Hcases as [[Hhd ->] | [_ ->]].
      * apply dn_cons; [congruence | now apply dn_tail in Hu].
      * apply dn_cons; [rewrite hd_firstn_cons; congruence|].
        now apply dn_firstn.
  - destruct (undoStackOf (activeTab st) st) as [|x rest] eqn:Hstack.
    + rewrite undo_empty by exact Hstack. rewrite Hstack. now split.
    + destruct (undo_spec st _ _ Hstack) as (_ & -> & -> & ->).
      split; [now apply dn_tail in Hu|].
      apply dn_cons; [rewrite hd_firstn_cons | now apply dn_firstn].
      apply dn_head in Hu. cbn in Hu. congruence.
  - destruct (redoStackOf (activeTab st) st) as [|x rest] eqn:Hstack.
    + rewrite redo_empty by exact Hstack. rewrite Hstack. now split.
    + destruct (redo_spec st _ _ Hstack) as (_ & -> & -> & ->).
      split; [|now apply dn_tail in Hr].
      apply dn_cons; [rewrite hd_firstn_cons | now apply dn_firstn].
      apply dn_head in Hr. cbn in Hr. congruence.
  - change (selectTab selected st) with (step st (SelectTab selected)).
    destruct (step_frame st (SelectTab selected) (activeTab st))
      as (-> & -> & ->); [right; now exists selected | now split].
Qed.

Lemma run_tidy (events : list Event) :
  forall st, tidy st -> tidy (run events st).
Proof.
  unfold run. induction events as [|e events IH]; intros st H; cbn [fold_left].
  - exact H.
  - apply IH. now apply step_tidy.
Qed.

End MoreHistory.

Section HistoryChains.
Import Js App Docs.

Lemma run_edits_cons (value : string) (values : list string) (st : State) :
  run (map Edit (value :: values)) st = run (map Edit values) (edit value st).
Proof. reflexivity. Qed.

(** As many undos as there were changes lead back to where the changes
    started, with the changed texts on the redo stack. *)
Lemma undo_all_edits (values : list string) :
  forall st,
    distinctNeighbours (codeOf (activeTab st) st :: values) ->
    hd_error (undoStackOf (activeTab st) st) <> Some (codeOf (activeTab st) st) ->
    length (undoStackOf (activeTab st) st) + length values <= MAX_UNDO_STACK_SIZE ->
    let st' := Nat.iter (length values) handleUndo (run (map Edit values) st) in
    activeTab st' = activeTab st /\
    codeOf (activeTab st) st' = codeOf (activeTab st) st /\
    undoStackOf (activeTab st) st' = undoStackOf (activeTab st) st /\
    redoStackOf (activeTab st) st'
    = match values with
      | [] => redoStackOf (activeTab st) st
      | _ => values
      end.
Proof.
  induction values as [|v values IH]; intros st Hdn Htop Hlen.
  - cbn. repeat split.
  - cbn [length]. cbv zeta. rewrite Nat.iter_succ, run_edits_cons.
    assert (Hv : v <> codeOf (activeTab st) st) by (cbn in Hdn; intuition congruence).
    destruct (edit_spec v st Hv) as (Ht & Hc & Hr & [[Hhd _] | [_ Hu]]);
      [contradiction|].
    rewrite firstn_cons_within in Hu by (cbn [length] in Hlen; lia).
    set (st1 := edit v st) in *.
    specialize (IH st1). rewrite Ht, Hc, Hu in IH.
    cbn zeta in IH.
    destruct IH as (Ht' & Hc' & Hu' & Hr').
    + now apply dn_tail in Hdn.
    + cbn. congruence.
    + cbn [length] in *. lia.
    + set (st2 := Nat.iter (length values) handleUndo (run (map Edit values) st1)) in *.
      rewrite <- Ht' in Hu' at 1.
      destruct (undo_spec st2 _ _ Hu') as (Ht2 & Hc2 & Hu2 & Hr2).
      rewrite Ht' in *. rewrite Hc', Hr' in Hr2.
      split; [congruence|]. split; [congruence|]. split; [congruence|].
      rewrite Hr2. destruct values as [|w values].
      * rewrite Hr. reflexivity.
      * apply firstn_cons_within. cbn [length] in *. lia.
Qed.

(** An undo and a redo in a row change nothing but the update key, unless
    a full stack has to drop an entry. *)
Lemma undo_redo_whole (st : State) :
  undoStackOf (activeTab st) st <> [] ->
  length (undoStackOf (activeTab st) st) <= MAX_UNDO_STACK_SIZE ->
  length (redoStackOf (activeTab st) st) < MAX_UNDO_STACK_SIZE ->
  handleRedo (handleUndo st) = setEditorUpdateKey (fun prev => prev + 2)%Z st.
Proof.
  open_state st. destruct tab; st_cbn; intros Hne Hu Hr;
    match goal with
    | H : ?stack <> [] |- _ => destruct stack as [|x rest]; [congruence|]
    end;
    unfold handleUndo; st_cbn; unfold slice0;
    rewrite firstn_cons_within by exact Hr;
    unfold handleRedo; st_cbn; unfold slice0;
    rewrite firstn_within by exact Hu;
    f_equal; lia.
Qed.

Lemma redo_undo_whole (st : State) :
  redoStackOf (activeTab st) st <> [] ->
  length (redoStackOf (activeTab st) st) <= MAX_UNDO_STACK_SIZE ->
  length (undoStackOf (activeTab st) st) < MAX_UNDO_STACK_SIZE ->
  handleUndo (handleRedo st) = setEditorUpdateKey (fun prev => prev + 2)%Z st.
Proof.
  open_state st. destruct tab; st_cbn; intros Hne Hr Hu;
    match goal with
    | H : ?stack <> [] |- _ => destruct stack as [|x rest]; [congruence|]
    end;
    unfold handleRedo; st_cbn; unfold slice0;
    rewrite firstn_cons_within by exact Hu;
    unfold handleUndo; st_cbn; unfold slice0;
    rewrite firstn_within by exact Hr;
    f_equal; lia.
Qed.

End HistoryChains.

(** X1: a change to a new text can be undone and redone: the undo gives
    the old text back and the redo after it the new one. *)
Theorem edit_undo_redo (st : App.State) (value : string) :
  value <> App.codeOf (App.activeTab st) st ->
  App.codeOf (App.activeTab st) (App.handleUndo (App.edit value st))
  = App.codeOf (App.activeTab st) st /\
  App.codeOf (App.activeTab st)
    (App.handleRedo (App.handleUndo (App.edit value st))) = value.
Proof.
  intros Hv.
  destruct (edit_spec value st Hv) as (Ht & Hc & _ & _).
  destruct (edit_top value st Hv) as [rest Hu].
  rewrite <- Ht in Hu at 1.
  destruct (undo_spec _ _ _ Hu) as (_ & Hc2 & _ & _).
  rewrite Ht in Hc2. split; [exact Hc2|].
  assert (Hne : App.undoStackOf (App.activeTab (App.edit value st))
                  (App.edit value st) <> [])
    by (rewrite Hu; discriminate).
  pose proof (undo_then_redo_code (App.edit value st) Hne) as H.
  rewrite Ht in H. now rewrite H.
Qed.

Lemma edit_undo_redo_witness :
  let st := App.Build_State "" "a{}" "" App.css App.editor ""
              App.noResults "" [] ["a{}"] [] [] [] [] 0 in
  App.codeOf App.css (App.handleUndo (App.edit "b{}" st)) = "a{}" /\
  App.codeOf App.css (App.handleRedo (App.handleUndo (App.edit "b{}" st)))
  = "b{}".
Proof.
  intros st. apply (edit_undo_redo st "b{}"). discriminate.
Defined.

(** X2: with a non-empty redo stack, a redo followed at once by an undo
    leaves the document on screen with the text it had before. *)
Theorem redo_undo_restores (st : App.State) :
  App.redoStackOf (App.activeTab st) st <> [] ->
  App.codeOf (App.activeTab st) (App.handleUndo (App.handleRedo st))
  = App.codeOf (App.activeTab st) st.
Proof. apply redo_then_undo_code. Qed.

Lemma redo_undo_restores_witness :
  let st := App.Build_State "" "" "x()" App.js App.editor ""
              App.noResults "" [] [] [] [] [] ["y()"] 0 in
  App.codeOf App.js (App.handleUndo (App.handleRedo st)) = "x()".
Proof.
  intros st. apply (redo_undo_restores st). discriminate.
Defined.

(** X3: an undo followed by a redo gives back every part of the state other
    than the update key (the three texts, the selected tab and view, the
    search state and all six stacks), when the undo stack is within the
    bound and the redo stack holds fewer than 50 entries; likewise a redo
    followed by an undo, with the roles of the stacks exchanged.  Nothing
    is said of the update key, which both handlers advance. *)
Theorem undo_redo_round_trip (st : App.State) :
  (App.undoStackOf (App.activeTab st) st <> [] ->
   length (App.undoStackOf (App.activeTab st) st) <= App.MAX_UNDO_STACK_SIZE ->
   length (App.redoStackOf (App.activeTab st) st) < App.MAX_UNDO_STACK_SIZE ->
   App.setEditorUpdateKey (fun _ => 0%Z) (App.handleRedo (App.handleUndo st))
   = App.setEditorUpdateKey (fun _ => 0%Z) st) /\
  (App.redoStackOf (App.activeTab st) st <> [] ->
   length (App.redoStackOf (App.activeTab st) st) <= App.MAX_UNDO_STACK_SIZE ->
   length (App.undoStackOf (App.activeTab st) st) < App.MAX_UNDO_STACK_SIZE ->
   App.setEditorUpdateKey (fun _ => 0%Z) (App.handleUndo (App.handleRedo st))
   = App.setEditorUpdateKey (fun _ => 0%Z) st).
Proof.
  split; intros Hne Hfull Hroom.
  - rewrite (undo_redo_whole st Hne Hfull Hroom). destruct st; reflexivity.
  - rewrite (redo_undo_whole st Hne Hfull Hroom). destruct st; reflexivity.
Qed.

Lemma undo_redo_round_trip_witness :
  let st := App.Build_State "c" "" "" App.html App.editor ""
              App.noResults "" ["b"; "a"] [] [] ["d"] [] [] 7 in
  App.setEditorUpdateKey (fun _ => 0%Z) (App.handleRedo (App.handleUndo st))
  = App.setEditorUpdateKey (fun _ => 0%Z) st /\
  App.setEditorUpdateKey (fun _ => 0%Z) (App.handleUndo (App.handleRedo st))
  = App.setEditorUpdateKey (fun _ => 0%Z) st.
Proof.
  intros st. split.
  - apply (proj1 (undo_redo_round_trip st));
      [discriminate | cbn; unfold App.MAX_UNDO_STACK_SIZE; lia
       | cbn; unfold App.MAX_UNDO_STACK_SIZE; lia].
  - apply (proj2 (undo_redo_round_trip st));
      [discriminate | cbn; unfold App.MAX_UNDO_STACK_SIZE; lia
       | cbn; unfold App.MAX_UNDO_STACK_SIZE; lia].
Defined.



(** X5: a change, an undo or a redo leaves the text and both stacks of
    the documents that are not on screen as they are, and the selection of
    a tab leaves all three documents as they are. *)
Theorem other_documents_untouched (st : App.State) (e : App.Event)
  (tab : App.ActiveTab) :
  tab <> App.activeTab st \/ (exists selected, e = App.SelectTab selected) ->
  App.codeOf tab (App.step st e) = App.codeOf tab st /\
  App.undoStackOf tab (App.step st e) = App.undoStackOf tab st /\
  App.redoStackOf tab (App.step st e) = App.redoStackOf tab st.
Proof. apply step_frame. Qed.

Lemma other_documents_untouched_witness :
  let st := App.Build_State "h" "c" "j" App.html App.editor ""
              App.noResults "" ["h0"] ["c0"] [] [] ["c1"] [] 0 in
  App.codeOf App.css (App.step st (App.Edit "h2")) = "c" /\
  App.undoStackOf App.css (App.step st (App.Edit "h2")) = ["c0"] /\
  App.redoStackOf App.css (App.step st (App.Edit "h2")) = ["c1"].
Proof.
  intros st.
  apply (other_documents_untouched st (App.Edit "h2") App.css).
  left. discriminate.
Defined.

(** X6: when no document has its text on top of one of its stacks, nor a
    stack with an entry right after an equal one, this stays so under
    changes, undos, redos and tab selections; then every undo and every
    redo with a non-empty stack changes the text on screen, and a change
    to a new text always pushes the old one. *)
Theorem history_stays_tidy (events : list App.Event) (st : App.State) :
  Docs.tidy st ->
  let st' := App.run events st in
  let tab := App.activeTab st' in
  Docs.tidy st' /\
  (App.undoStackOf tab st' <> [] ->
   App.codeOf tab (App.handleUndo st') <> App.codeOf tab st') /\
  (App.redoStackOf tab st' <> [] ->
   App.codeOf tab (App.handleRedo st') <> App.codeOf tab st') /\
  (forall value,
     value <> App.codeOf tab st' ->
     App.undoStackOf tab (App.edit value st')
     = firstn App.MAX_UNDO_STACK_SIZE
         (App.codeOf tab st' :: App.undoStackOf tab st')).
Proof.
  intros H st' tab.
  assert (Ht : Docs.tidy st') by now apply run_tidy.
  clearbody st'. subst tab. destruct (Ht (App.activeTab st')) as [Hu Hr].
  split; [exact Ht|]. repeat split.
  - intros Hne.
    destruct (App.undoStackOf (App.activeTab st') st') as [|x rest] eqn:Hs;
      [congruence|].
    destruct (undo_spec st' _ _ Hs) as (_ & -> & _).
    cbn in Hu. intuition congruence.
  - intros Hne.
    destruct (App.redoStackOf (App.activeTab st') st') as [|x rest] eqn:Hs;
      [congruence|].
    destruct (redo_spec st' _ _ Hs) as (_ & -> & _).
    cbn in Hr. intuition congruence.
  - intros value Hv.
    destruct (edit_spec value st' Hv) as (_ & _ & _ & [[Hhd _] | [_ ->]]);
      [|reflexivity].
    now apply dn_head in Hu.
Qed.

Lemma history_stays_tidy_witness :
  let st := App.Build_State "a" "" "" App.html App.editor ""
              App.noResults "" [] [] [] [] [] [] 0 in
  let st' := App.run [App.Edit "b"; App.Edit "c"; App.Undo] st in
  Docs.tidy st /\ Docs.tidy st' /\
  App.codeOf App.html (App.handleUndo st') <> App.codeOf App.html st'.
Proof.
  intros st st'.
  assert (H : Docs.tidy st) by (intros []; split; exact I).
  split; [exact H|].
  destruct (history_stays_tidy [App.Edit "b"; App.Edit "c"; App.Undo] st H)
    as (Ht & Hu & _).
  split; [exact Ht|]. apply Hu. discriminate.
Defined.

(** X7: an undo leaves the state as it is exactly when the undo stack of
    the document on screen is empty, and a redo exactly when its redo
    stack is; in the editor view these are the states in which the button
    is disabled. *)
Theorem undo_noop_iff_empty (st : App.State) :
  (App.handleUndo st = st <-> App.undoStackOf (App.activeTab st) st = []) /\
  (App.handleRedo st = st <-> App.redoStackOf (App.activeTab st) st = []) /\
  (App.activeAppView st = App.editor ->
   (App.isUndoDisabled st = true <-> App.handleUndo st = st) /\
   (App.isRedoDisabled st = true <-> App.handleRedo st = st)).
Proof.
  assert (HU : App.handleUndo st = st
               <-> App.undoStackOf (App.activeTab st) st = []).
  { split; [|apply undo_empty]. intros H.
    destruct (App.undoStackOf (App.activeTab st) st) as [|x rest] eqn:Hs;
      [reflexivity|].
    pose proof (key_undo st _ _ Hs) as Hk. rewrite H in Hk. lia. }
  assert (HR : App.handleRedo st = st
               <-> App.redoStackOf (App.activeTab st) st = []).
  { split; [|apply redo_empty]. intros H.
    destruct (App.redoStackOf (App.activeTab st) st) as [|x rest] eqn:Hs;
      [reflexivity|].
    pose proof (key_redo st _ _ Hs) as Hk. rewrite H in Hk. lia. }
  split; [exact HU|]. split; [exact HR|].
  intros Hview. rewrite HU, HR. clear HU HR.
  open_state st. unfold App.isUndoDisabled, App.isRedoDisabled.
  st_cbn. subst view.
  destruct tab; st_cbn;
    split; match goal with
           | |- App.isNil ?l = true <-> _ => destruct l; cbn; split; congruence
           end.
Qed.

Lemma undo_noop_iff_empty_witness :
  let st := App.Build_State "a" "" "" App.html App.editor ""
              App.noResults "" [] [] [] ["b"] [] [] 0 in
  App.isUndoDisabled st = true /\ App.handleUndo st = st.
Proof.
  intros st. split; [reflexivity|].
  apply (proj1 (proj2 (proj2 (undo_noop_iff_empty st)) eq_refl)).
  reflexivity.
Defined.

(** X8: after a run of changes, each to a text other than the one before,
    as many undos bring back the text and the undo stack from before the
    changes and leave the changed texts on the redo stack in the order
    they were made, as long as the undo stack has room for them. *)
Theorem undos_walk_back (values : list string) (st : App.State) :
  Docs.distinctNeighbours (App.codeOf (App.activeTab st) st :: values) ->
  hd_error (App.undoStackOf (App.activeTab st) st)
  <> Some (App.codeOf (App.activeTab st) st) ->
  length (App.undoStackOf (App.activeTab st) st) + length values
  <= App.MAX_UNDO_STACK_SIZE ->
  values <> [] ->
  let st' := Nat.iter (length values) App.handleUndo
               (App.run (map App.Edit values) st) in
  App.codeOf (App.activeTab st) st' = App.codeOf (App.activeTab st) st /\
  App.undoStackOf (App.activeTab st) st' = App.undoStackOf (App.activeTab st) st /\
  App.redoStackOf (App.activeTab st) st' = values.
Proof.
  intros Hdn Htop Hlen Hne st'.
  destruct (undo_all_edits values st Hdn Htop Hlen) as (_ & Hc & Hu & Hr).
  fold st' in Hc, Hu, Hr.
  destruct values; [congruence | auto].
Qed.

Lemma undos_walk_back_witness :
  let st := App.Build_State "v0" "" "" App.html App.editor ""
              App.noResults "" ["u"] [] [] ["r"] [] [] 0 in
  let st' := Nat.iter 3 App.handleUndo
               (App.run (map App.Edit ["v1"; "v2"; "v1"]) st) in
  App.codeOf App.html st' = "v0" /\
  App.undoStackOf App.html st' = ["u"] /\
  App.redoStackOf App.html st' = ["v1"; "v2"; "v1"].
Proof.
  intros st.
  apply (undos_walk_back ["v1"; "v2"; "v1"] st).
  - cbn. repeat split; discriminate.
  - discriminate.
  - cbn. unfold App.MAX_UNDO_STACK_SIZE. lia.
  - discriminate.
Defined.

(** ** Search: what the results are and how the navigation composes *)

Section MoreSearch.
Import Js App Docs.
Local Open Scope nat_scope.

Lemma prefix_length (t : string) :
  forall s, String.prefix t s = true -> String.length t <= String.length s.
Proof.
  induction t as [|a t IH]; intros s H; cbn [String.length]; [lia|].
  destruct s as [|b s]; cbn in H; [discriminate|].
  destruct (ascii_dec a b); [|discriminate].
  specialize (IH s H). cbn [String.length]. lia.
Qed.

Lemma substring_drop (n m : nat) :
  forall s, substring n m s = substring 0 m (drop n s).
Proof.
  induction n as [|n IH]; intros s; [now destruct s|].
  destruct s as [|c s]; cbn [substring drop]; [now destruct m | apply IH].
Qed.

Lemma occursAt_substring (t s : string) (n : nat) :
  occursAt t s n = true <-> substring n (String.length t) s = t.
Proof.
  unfold occursAt. rewrite substring_drop. apply String.prefix_correct.
Qed.

Lemma sorted_filter_seq (f : nat -> bool) (n : nat) :
  forall p,
    StronglySorted Z.lt (map Z.of_nat (filter f (seq p n))) /\
    Forall (fun i => (Z.of_nat p <= i)%Z) (map Z.of_nat (filter f (seq p n))).
Proof.
  induction n as [|n IH]; intros p; cbn [seq filter map].
  - split; constructor.
  - destruct (IH (S p)) as [Hs Hf].
    assert (Hf' : Forall (fun i => (Z.of_nat p <= i)%Z)
                    (map Z.of_nat (filter f (seq (S p) n)))).
    { eapply Forall_impl; [|exact Hf]. cbn beta. intros i Hi. lia. }
    destruct (f p); cbn [map]; [|now split].
    split.
    + constructor; [exact Hs|].
      eapply Forall_impl; [|exact Hf]. cbn beta. intros i Hi. lia.
    + constructor; [lia | exact Hf'].
Qed.

Lemma in_occurrences (t s : string) (i : Z) :
  In i (occurrences t s) <->
  exists n, i = Z.of_nat n /\ n < String.length s /\ occursAt t s n = true.
Proof.
  unfold occurrences. rewrite in_map_iff. split.
  - intros (n & <- & Hn). apply filter_In in Hn. destruct Hn as [Hn Ho].
    apply in_seq in Hn. exists n. repeat split; [lia | exact Ho].
  - intros (n & -> & Hn & Ho). exists n. split; [reflexivity|].
    apply filter_In. split; [apply in_seq; lia | exact Ho].
Qed.

Lemma rem_next_prev (index len : Z) :
  (0 <= index < len)%Z ->
  (((index + 1) mod len - 1 + len) mod len = index)%Z.
Proof.
  intros H. destruct (Z.eq_dec (index + 1) len) as [E|E].
  - rewrite E, Z.mod_same by lia.
    replace (0 - 1 + len)%Z with index by lia. apply Z.mod_small. lia.
  - rewrite (Z.mod_small (index + 1)) by lia.
    replace (index + 1 - 1 + len)%Z with (index + 1 * len)%Z by lia.
    rewrite Z.mod_add by lia. apply Z.mod_small. lia.
Qed.

Lemma rem_prev_next (index len : Z) :
  (0 <= index < len)%Z ->
  (((index - 1 + len) mod len + 1) mod len = index)%Z.
Proof.
  intros H. destruct (Z.eq_dec index 0) as [E|E].
  - subst index. replace (0 - 1 + len)%Z with (len - 1)%Z by lia.
    rewrite (Z.mod_small (len - 1)) by lia.
    replace (len - 1 + 1)%Z with len by lia. apply Z.mod_same. lia.
  - replace (index - 1 + len)%Z with (index - 1 + 1 * len)%Z by lia.
    rewrite Z.mod_add by lia. rewrite (Z.mod_small (index - 1)) by lia.
    replace (index - 1 + 1)%Z with index by lia. apply Z.mod_small. lia.
Qed.

Lemma setSearchResults_twice (r r' : SearchResults) (st : State) :
  setSearchResults r (setSearchResults r' st) = setSearchResults r st.
Proof. now destruct st. Qed.

Lemma setSearchResults_same (st : State) :
  setSearchResults (searchResults st) st = st.
Proof. now destruct st. Qed.

Lemma setSearchResults_view (r : SearchResults) (st : State) :
  activeAppView (setSearchResults r st) = activeAppView st /\
  activeTab (setSearchResults r st) = activeTab st /\
  getCurrentCode (setSearchResults r st) = getCurrentCode st /\
  searchTerm (setSearchResults r st) = searchTerm st /\
  lastSearchedTerm (setSearchResults r st) = lastSearchedTerm st /\
  searchResults (setSearchResults r st) = r.
Proof. destruct st. unfold getCurrentCode. st_cbn. repeat split. Qed.

End MoreSearch.

(** X9: the offsets that a fresh search reports are strictly increasing,
    each is an offset at which the lower-cased term stands in the
    lower-cased text, with the whole term inside the text, and no such
    offset is left out. *)
Theorem search_offsets_exact (fuel : nat) (attached : App.ActiveTab -> bool)
  (navigation : option App.Navigation) (st : App.State) :
  App.activeAppView st = App.editor ->
  attached (App.activeTab st) = true ->
  App.getCurrentCode st <> "" ->
  Js.trim (App.searchTerm st) <> "" ->
  App.searchTerm st <> App.lastSearchedTerm st \/ navigation = None ->
  (String.length (App.getCurrentCode st) < fuel)%nat ->
  let term := Js.toLowerCase (App.searchTerm st) in
  let text := Js.toLowerCase (App.getCurrentCode st) in
  exists st',
    App.handleSearch fuel attached navigation st = Some st' /\
    StronglySorted Z.lt (App.indices (App.searchResults st')) /\
    forall i,
      In i (App.indices (App.searchResults st')) <->
      exists n, i = Z.of_nat n /\
                (n + String.length term <= String.length text)%nat /\
                substring n (String.length term) text = term.
Proof.
  intros Hview Hatt Hcode Hterm Hfresh Hfuel term text.
  rewrite (search_fresh fuel attached navigation st) by assumption.
  cbv zeta. fold term text. eexists. split; [reflexivity|].
  destruct (setSearchResults_view
              {| App.indices := App.occurrences term text;
                 App.currentResultIndex :=
                   if App.isNil (App.occurrences term text) then (-1)%Z else 0%Z |}
              (App.setLastSearchedTerm (App.searchTerm st) st))
    as (_ & _ & _ & _ & _ & ->).
  cbn [App.indices]. split.
  - apply sorted_filter_seq.
  - intros i. rewrite in_occurrences. split.
    + intros (n & -> & Hn & Ho). exists n. split; [reflexivity|].
      split; [|now apply occursAt_substring].
      unfold App.occursAt in Ho. apply prefix_length in Ho.
      rewrite length_drop in Ho. lia.
    + intros (n & -> & Hn & Hs). exists n. split; [reflexivity|].
      assert (term <> "")
        by (subst term; now apply toLowerCase_nonempty, trim_nonempty).
      split; [|now apply occursAt_substring].
      destruct term; [congruence | cbn [String.length] in Hn; lia].
Qed.

Lemma search_offsets_exact_witness :
  let st := App.Build_State "" "" "Foo(); fOO()" App.js App.editor "foo"
              App.noResults "" [] [] [] [] [] [] 0 in
  exists st',
    App.handleSearch 13 (fun _ => true) None st = Some st' /\
    StronglySorted Z.lt (App.indices (App.searchResults st')) /\
    forall i,
      In i (App.indices (App.searchResults st')) <->
      exists n, i = Z.of_nat n /\
                (n + 3 <= 12)%nat /\
                substring n 3 "foo(); foo()" = "foo".
Proof.
  intros st.
  apply (search_offsets_exact 13 (fun _ => true) None st);
    solve [ reflexivity | discriminate | now right | cbn; lia ].
Defined.

(** X10: with the saved-projects view on screen, no editor element
    attached, an empty text or a blank term, a search only clears the
    results, whatever the direction and however little fuel there is. *)
Theorem search_guard_clears (fuel : nat) (attached : App.ActiveTab -> bool)
  (navigation : option App.Navigation) (st : App.State) :
  App.activeAppView st = App.savedProjects \/
  attached (App.activeTab st) = false \/
  App.getCurrentCode st = "" \/
  Js.trim (App.searchTerm st) = "" ->
  App.handleSearch fuel attached navigation st
  = Some (App.setSearchResults App.noResults st).
Proof.
  intros H. unfold App.handleSearch. cbv zeta.
  destruct (negb match App.getCurrentEditorRef st with
                 | Some ref => attached ref
                 | None => false
                 end || Js.isEmpty (App.getCurrentCode st)) eqn:E;
    [reflexivity|].
  apply orb_false_iff in E. destruct E as [E1 E2].
  destruct H as [H | [H | [H | H]]].
  - unfold App.getCurrentEditorRef in E1. now rewrite H in E1.
  - unfold App.getCurrentEditorRef in E1.
    destruct (App.activeAppView st); [now rewrite H in E1 | discriminate].
  - now rewrite H in E2.
  - now rewrite H.
Qed.

Lemma search_guard_clears_witness :
  let st := App.Build_State "<p>a b</p>" "" "" App.html App.editor "  "
              {| App.indices := [3%Z]; App.currentResultIndex := 0%Z |} "a"
              [] [] [] [] [] [] 0 in
  App.handleSearch 0 (fun _ => true) (Some App.next) st
  = Some (App.setSearchResults App.noResults st).
Proof.
  intros st.
  apply (search_guard_clears 0 (fun _ => true) (Some App.next) st).
  right. right. right. reflexivity.
Defined.

(** X11: with the term unchanged and a match selected, a next followed by
    a prev, and a prev followed by a next, give the state back. *)
Theorem search_next_prev_inverse (fuel : nat)
  (attached : App.ActiveTab -> bool) (st : App.State) :
  App.activeAppView st = App.editor ->
  attached (App.activeTab st) = true ->
  App.getCurrentCode st <> "" ->
  Js.trim (App.searchTerm st) <> "" ->
  App.searchTerm st = App.lastSearchedTerm st ->
  (0 <= App.currentResultIndex (App.searchResults st)
   < Z.of_nat (length (App.indices (App.searchResults st))))%Z ->
  (exists st1,
     App.handleSearch fuel attached (Some App.next) st = Some st1 /\
     App.handleSearch fuel attached (Some App.prev) st1 = Some st) /\
  (exists st1,
     App.handleSearch fuel attached (Some App.prev) st = Some st1 /\
     App.handleSearch fuel attached (Some App.next) st1 = Some st).
Proof.
  intros Hview Hatt Hcode Hterm Hsame Hidx.
  assert (Hne : App.indices (App.searchResults st) <> [])
    by (destruct (App.indices (App.searchResults st)); cbn in *; [lia | discriminate]).
  split.
  - rewrite (search_navigate fuel attached App.next st) by (try assumption; lia).
    cbv zeta. eexists. split; [reflexivity|].
    match goal with
    | |- context [App.setSearchResults ?r st] =>
        destruct (setSearchResults_view r st) as (V & T & C & S & L & R)
    end.
    rewrite (search_navigate fuel attached App.prev);
      rewrite ?V, ?T, ?C, ?S, ?L, ?R; cbn [App.indices App.currentResultIndex];
      try assumption.
    + cbv zeta. rewrite setSearchResults_twice, rem_next_prev by exact Hidx.
      rewrite <- (setSearchResults_same st) at 4.
      f_equal. f_equal. now destruct (App.searchResults st).
    + apply Z.mod_pos_bound. lia.
  - rewrite (search_navigate fuel attached App.prev st) by (try assumption; lia).
    cbv zeta. eexists. split; [reflexivity|].
    match goal with
    | |- context [App.setSearchResults ?r st] =>
        destruct (setSearchResults_view r st) as (V & T & C & S & L & R)
    end.
    rewrite (search_navigate fuel attached App.next);
      rewrite ?V, ?T, ?C, ?S, ?L, ?R; cbn [App.indices App.currentResultIndex];
      try assumption.
    + cbv zeta. rewrite setSearchResults_twice, rem_prev_next by exact Hidx.
      rewrite <- (setSearchResults_same st) at 4.
      f_equal. f_equal. now destruct (App.searchResults st).
    + apply Z.mod_pos_bound. lia.
Qed.

Lemma search_next_prev_inverse_witness :
  let st := App.Build_State "<div><div>" "" "" App.html App.editor "div"
              {| App.indices := [1%Z; 6%Z]; App.currentResultIndex := 1%Z |}
              "div" [] [] [] [] [] [] 0 in
  (exists st1,
     App.handleSearch 0 (fun _ => true) (Some App.next) st = Some st1 /\
     App.handleSearch 0 (fun _ => true) (Some App.prev) st1 = Some st) /\
  (exists st1,
     App.handleSearch 0 (fun _ => true) (Some App.prev) st = Some st1 /\
     App.handleSearch 0 (fun _ => true) (Some App.next) st1 = Some st).
Proof.
  intros st.
  apply (search_next_prev_inverse 0 (fun _ => true) st);
    solve [ reflexivity | discriminate | cbn; lia ].
Defined.

(** X12: with fuel for one iteration more than the active text has code
    units, a search returns, and it keeps the selection in step with the
    list of matches: either the list is empty and nothing is selected
    (index -1), or the selected index is a position of the list.  This
    holds of a fresh search, of a step to the next or previous match and
    of the calls that clear the results. *)
Theorem search_selection_valid (fuel : nat) (attached : App.ActiveTab -> bool)
  (navigation : option App.Navigation) (st : App.State) :
  Docs.selectionValid (App.searchResults st) ->
  String.length (App.getCurrentCode st) < fuel ->
  exists st',
    App.handleSearch fuel attached navigation st = Some st' /\
    Docs.selectionValid (App.searchResults st').
Proof.
  intros Hvalid Hfuel. unfold App.handleSearch. cbv zeta.
  assert (Hclear : Docs.selectionValid
            (App.searchResults (App.setSearchResults App.noResults st)))
    by (destruct st; left; split; reflexivity).
  assert (Hset : forall r s, Docs.selectionValid r ->
            Docs.selectionValid (App.searchResults (App.setSearchResults r s)))
    by (intros r s Hr; now destruct s).
  destruct (_ || Js.isEmpty _); [eexists; split; [reflexivity | exact Hclear]|].
  destruct (Js.isEmpty (Js.trim (App.searchTerm st))) eqn:Eterm;
    [eexists; split; [reflexivity | exact Hclear]|].
  destruct (_ || _).
  - assert (Hterm : Js.toLowerCase (App.searchTerm st) <> "").
    { apply toLowerCase_nonempty, trim_nonempty.
      intros E. rewrite E in Eterm. discriminate. }
    change (-1)%Z with (Z.of_nat 0 - 1)%Z.
    rewrite (searchLoop_spec _ _ Hterm fuel 0 [])
      by (rewrite ?length_toLowerCase; lia).
    eexists; split; [reflexivity|]. apply Hset.
    destruct (_ ++ _)%list as [|i found]; [left; now split | right; cbn; lia].
  - assert (Hnav : forall index',
              (0 <= index' < Z.of_nat (length (App.indices (App.searchResults st))))%Z ->
              Docs.selectionValid
                {| App.indices := App.indices (App.searchResults st);
                   App.currentResultIndex := index' |})
      by (intros index' H; right; exact H).
    assert (Hsame : Docs.selectionValid
              {| App.indices := App.indices (App.searchResults st);
                 App.currentResultIndex :=
                   App.currentResultIndex (App.searchResults st) |})
      by (destruct (App.searchResults st); exact Hvalid).
    destruct navigation as [nav|];
      [|eexists; split; [reflexivity | now apply Hset]].
    destruct (0 <? length (App.indices (App.searchResults st)))%nat eqn:El;
      [|eexists; split; [reflexivity | now apply Hset]].
    apply Nat.ltb_lt in El.
    destruct Hvalid as [[Hnil _] | Hidx]; [rewrite Hnil in El; cbn in El; lia|].
    eexists; split; [reflexivity|]. apply Hset, Hnav.
    destruct nav; apply Z.rem_bound_pos; lia.
Qed.

Lemma search_selection_valid_witness :
  let st := App.Build_State "<div><Div>" "" "" App.html App.editor "div"
              App.noResults "" [] [] [] [] [] [] 0 in
  exists st',
    App.handleSearch 11 (fun _ => true) None st = Some st' /\
    Docs.selectionValid (App.searchResults st').
Proof.
  intros st.
  apply (search_selection_valid 11 (fun _ => true) None st).
  - left. split; reflexivity.
  - cbn. lia.
Defined.

(** ** Import: all outcomes *)

(** X13: whatever the page's parser and element tree answer, the import
    handler returns without raising and shows exactly one alert: either
    the success alert, with all six stacks empty, the markup tab selected
    and the editor view on screen, or the failure alert after a logged
    error, with the state as it was before. *)
Theorem import_never_raises (D : App.Dom) (fileContent : string)
  (w : App.World) :
  exists w',
    App.handleImportProject fileContent w = (w', App.Ok tt) /\
    ((App.effects w' = (App.effects w ++ [App.alert App.importSucceeded])%list /\
      App.activeTab (App.state w') = App.html /\
      App.activeAppView (App.state w') = App.editor /\
      App.isUndoDisabled (App.state w') = true /\
      App.isRedoDisabled (App.state w') = true /\
      forall tab, App.undoStackOf tab (App.state w') = [] /\
                  App.redoStackOf tab (App.state w') = [])
     \/
     (App.state w' = App.state w /\
      exists e,
        App.effects w'
        = (App.effects w
           ++ [App.consoleError "Error importing project:" e;
               App.alert App.importFailed])%list)).
Proof.
  unfold App.handleImportProject, App.tryCatch, App.propertyOrEmpty.
  unfold App.bind, App.call, App.ret, App.perform, App.setState.
  assert (Hfail : forall e,
    exists w',
      ({| App.state := App.state w;
          App.effects := ((App.effects w
                           ++ [App.consoleError "Error importing project:" e])
                          ++ [App.alert App.importFailed])%list |}, App.Ok tt)
      = (w', App.Ok tt) /\
      ((App.effects w' = (App.effects w ++ [App.alert App.importSucceeded])%list /\
        App.activeTab (App.state w') = App.html /\
        App.activeAppView (App.state w') = App.editor /\
        App.isUndoDisabled (App.state w') = true /\
        App.isRedoDisabled (App.state w') = true /\
        forall tab, App.undoStackOf tab (App.state w') = [] /\
                    App.redoStackOf tab (App.state w') = [])
       \/
       (App.state w' = App.state w /\
        exists e0,
          App.effects w'
          = (App.effects w
             ++ [App.consoleError "Error importing project:" e0;
                 App.alert App.importFailed])%list))).
  { intros e. eexists. split; [reflexivity|]. right.
    split; [reflexivity|]. exists e. cbn [App.effects].
    now rewrite <- app_assoc. }
  destruct (App.parseFromString fileContent "text/html") as [doc|e];
    [|apply Hfail].
  destruct (App.getElementById doc "project-html-content") as [[el|]|e];
    [destruct (App.innerHTML el) as [h|e]; [|apply Hfail] | | apply Hfail];
    (destruct (App.getElementById doc "project-css") as [[el2|]|e];
     [destruct (App.textContent el2) as [c|e]; [|apply Hfail] | | apply Hfail]);
    (destruct (App.getElementById doc "project-js") as [[el3|]|e];
     [destruct (App.textContent el3) as [j|e]; [|apply Hfail] | | apply Hfail]);
    (eexists; split; [reflexivity|]; left;
     cbn [App.state App.effects]; destruct (App.state w);
     unfold App.clearAllUndoRedoStacks, App.isUndoDisabled, App.isRedoDisabled;
     st_cbn; repeat split; destruct tab; reflexivity).
Qed.



(** ** Saved projects *)

Section SavedProjects.
Import Js Projects.

Lemma storedAfter_app (e1 e2 : list Effect) (stored : list SavedProject) :
  storedAfter (e1 ++ e2) stored = storedAfter e2 (storedAfter e1 stored).
Proof.
  revert stored. induction e1 as [|[m|k ps|e] e1 IH]; intros stored; cbn;
    [reflexivity | apply IH | apply IH | apply IH].
Qed.

Lemma act_mirrors (a : Action) (st : State) :
  writeReturns a = true ->
  storedAfter (snd (act a st)) (savedProjects st) = savedProjects (fst (act a st)).
Proof.
  destruct a as [now isoTime [[]|e]|projectId|confirmed [[]|e] projectId
                 |value|events];
    cbn [act writeReturns]; intros Hw; try discriminate.
  - unfold handleConfirmSaveToLocal.
    destruct (isEmpty (trim (projectNameInput st))); [reflexivity|].
    now destruct st.
  - unfold handleLoadProjectFromLocal.
    destruct (find _ _); [|reflexivity]. now destruct st.
  - unfold handleDeleteProjectFromLocal.
    destruct confirmed; [|reflexivity]. now destruct st.
  - now destruct st.
  - now destruct st.
Qed.

Lemma find_first_id (p : SavedProject) (rest : list SavedProject) :
  find (fun q => String.eqb (id q) (id p)) (p :: rest) = Some p.
Proof. cbn [find]. now rewrite String.eqb_refl. Qed.

Lemma find_after_delete (projectId : string) (l : list SavedProject) :
  find (fun p => String.eqb (id p) projectId)
    (filter (fun p => negb (String.eqb (id p) projectId)) l) = None.
Proof.
  induction l as [|p l IH]; [reflexivity|]. cbn [filter].
  destruct (String.eqb (id p) projectId) eqn:E; cbn [negb]; [exact IH|].
  cbn [find]. now rewrite E.
Qed.

End SavedProjects.

(** X15: as long as every write of local storage returns, local storage
    mirrors the project list of the state: after any session of saving,
    loading, deleting, naming and editing that starts with the two alike
    and in which no write raises, the list that the last write stored is
    the list of the state.  (A write that raises breaks this: see X19.) *)
Theorem storage_mirrors_state (actions : list Projects.Action)
  (st : Projects.State) :
  forallb Projects.writeReturns actions = true ->
  let (st', effects) := Projects.session actions st in
  Projects.storedAfter effects (Projects.savedProjects st)
  = Projects.savedProjects st'.
Proof.
  revert st. induction actions as [|a actions IH]; intros st Hw;
    cbn [Projects.session]; [reflexivity|].
  cbn [forallb] in Hw. apply andb_true_iff in Hw. destruct Hw as [Hwa Hw].
  pose proof (act_mirrors a st Hwa) as Ha.
  destruct (Projects.act a st) as [st1 effects1]. cbn [fst snd] in Ha.
  specialize (IH st1 Hw).
  destruct (Projects.session actions st1) as [st2 effects2].
  now rewrite storedAfter_app, Ha.
Qed.

Lemma storage_mirrors_state_witness :
  let st := {| Projects.app :=
                 App.Build_State "<p>hi</p>" "p{}" "go()" App.html App.editor ""
                   App.noResults "" [] [] [] [] [] [] 0;
               Projects.savedProjects := [];
               Projects.projectNameInput := "";
               Projects.showSaveModal := true;
               Projects.isBurgerMenuOpen := false |} in
  let actions := [Projects.TypeName "one";
                  Projects.Save "1" "t1" (App.Ok tt);
                  Projects.Editing [App.Edit "<p>bye</p>"];
                  Projects.Save "2" "t2" (App.Ok tt);
                  Projects.Delete true (App.Ok tt) "1";
                  Projects.Load "2"] in
  Projects.storedAfter (snd (Projects.session actions st))
    (Projects.savedProjects st)
  = Projects.savedProjects (fst (Projects.session actions st)).
Proof.
  intros st actions.
  exact (storage_mirrors_state actions st eq_refl).
Defined.

(** X16: a project saved under a name that is not blank can be loaded
    again by its identifier, whatever was changed, undone or redone in
    between, and whatever else is saved under the same identifier: the
    load gives the three texts of the moment of saving back and empties
    all stacks. *)
Theorem save_then_load (now isoTime : string) (write : App.Result unit)
  (events : list App.Event) (st : Projects.State) :
  Js.trim (Projects.projectNameInput st) <> "" ->
  let st1 := fst (Projects.handleConfirmSaveToLocal now isoTime write st) in
  let st2 := Projects.editing events st1 in
  let st3 := fst (Projects.handleLoadProjectFromLocal now st2) in
  App.htmlCode (Projects.app st3) = App.htmlCode (Projects.app st) /\
  App.cssCode (Projects.app st3) = App.cssCode (Projects.app st) /\
  App.jsCode (Projects.app st3) = App.jsCode (Projects.app st) /\
  (forall tab, App.undoStackOf tab (Projects.app st3) = [] /\
               App.redoStackOf tab (Projects.app st3) = []).
Proof.
  intros Hname st1 st2 st3. subst st1 st2 st3.
  unfold Projects.handleConfirmSaveToLocal.
  rewrite (isEmpty_false _ Hname). cbv zeta.
  destruct st as [a saved input modal menu].
  destruct write as [[]|e]; cbn [fst];
  unfold Projects.editing, Projects.handleLoadProjectFromLocal;
  cbn [Projects.setSavedProjects Projects.setShowSaveModal Projects.setApp
       Projects.savedProjects Projects.app Projects.projectNameInput];
  cbn [find Projects.id]; rewrite String.eqb_refl;
  cbn [fst Projects.setApp Projects.setIsBurgerMenuOpen Projects.app
       Projects.htmlCode Projects.cssCode Projects.jsCode];
  destruct (App.run events a); unfold App.clearAllUndoRedoStacks; st_cbn;
  repeat split; destruct tab; reflexivity.
Qed.

Lemma save_then_load_witness :
  let st := {| Projects.app :=
                 App.Build_State "<p>hi</p>" "p{}" "go()" App.html App.editor ""
                   App.noResults "" [] [] [] [] [] [] 0;
               Projects.savedProjects := [];
               Projects.projectNameInput := " demo ";
               Projects.showSaveModal := true;
               Projects.isBurgerMenuOpen := false |} in
  let st1 := fst (Projects.handleConfirmSaveToLocal "1700000000000" "t"
                    (App.Ok tt) st) in
  let st2 := Projects.editing [App.Edit "<p>bye</p>"; App.SelectTab App.css;
                               App.Edit "q{}"] st1 in
  let st3 := fst (Projects.handleLoadProjectFromLocal "1700000000000" st2) in
  App.htmlCode (Projects.app st3) = "<p>hi</p>" /\
  App.cssCode (Projects.app st3) = "p{}" /\
  App.jsCode (Projects.app st3) = "go()" /\
  (forall tab, App.undoStackOf tab (Projects.app st3) = [] /\
               App.redoStackOf tab (Projects.app st3) = []).
Proof.
  intros st.
  apply (save_then_load "1700000000000" "t" (App.Ok tt)
           [App.Edit "<p>bye</p>"; App.SelectTab App.css; App.Edit "q{}"] st).
  discriminate.
Defined.

(** X17: a confirmed deletion removes every project saved under the
    identifier and no other, keeps the order of the rest, and makes a load
    by that identifier do nothing; a deletion that is not confirmed does
    nothing. *)
Theorem delete_then_load (write : App.Result unit) (projectId : string)
  (st : Projects.State) :
  let st1 :=
    fst (Projects.handleDeleteProjectFromLocal true write projectId st) in
  (forall p, In p (Projects.savedProjects st1) <->
             In p (Projects.savedProjects st) /\ Projects.id p <> projectId) /\
  Projects.savedProjects st1
  = filter (fun p => negb (String.eqb (Projects.id p) projectId))
      (Projects.savedProjects st) /\
  Projects.app st1 = Projects.app st /\
  Projects.handleLoadProjectFromLocal projectId st1 = (st1, []) /\
  Projects.handleDeleteProjectFromLocal false write projectId st = (st, []).
Proof.
  intros st1. subst st1. destruct st as [a saved input modal menu].
  unfold Projects.handleDeleteProjectFromLocal, Projects.handleLoadProjectFromLocal.
  cbv zeta.
  destruct write as [[]|e];
    cbn [fst Projects.setSavedProjects Projects.savedProjects Projects.app];
    (split; [|split; [reflexivity | split; [reflexivity | split; [|reflexivity]]]]);
    [ intros p; rewrite filter_In, negb_true_iff, String.eqb_neq; reflexivity
    | now rewrite find_after_delete
    | intros p; rewrite filter_In, negb_true_iff, String.eqb_neq; reflexivity
    | now rewrite find_after_delete ].
Qed.

(** X18: a load shows an alert exactly when a project is saved under the
    identifier; if none is, it changes nothing, and if one is, the texts
    loaded are those of the first such project, the markup tab and the
    editor view are selected, undo and redo are disabled and the project
    list is as before. *)
Theorem load_by_identifier (projectId : string) (st : Projects.State) :
  let (st', effects) := Projects.handleLoadProjectFromLocal projectId st in
  ((forall p, In p (Projects.savedProjects st) -> Projects.id p <> projectId) ->
   st' = st /\ effects = []) /\
  ((exists p, In p (Projects.savedProjects st) /\ Projects.id p = projectId) ->
   exists before p after,
     Projects.savedProjects st = (before ++ p :: after)%list /\
     (forall q, In q before -> Projects.id q <> projectId) /\
     Projects.id p = projectId /\
     effects = [Projects.alert
                  ("Project " ++ Projects.quoted (Projects.name p) ++ " loaded.")] /\
     App.htmlCode (Projects.app st') = Projects.htmlCode p /\
     App.cssCode (Projects.app st') = Projects.cssCode p /\
     App.jsCode (Projects.app st') = Projects.jsCode p /\
     App.activeTab (Projects.app st') = App.html /\
     App.activeAppView (Projects.app st') = App.editor /\
     App.isUndoDisabled (Projects.app st') = true /\
     App.isRedoDisabled (Projects.app st') = true /\
     Projects.savedProjects st' = Projects.savedProjects st).
Proof.
  unfold Projects.handleLoadProjectFromLocal.
  assert (Hfind : forall l,
    match find (fun p => String.eqb (Projects.id p) projectId) l with
    | Some p =>
        exists before after,
          l = (before ++ p :: after)%list /\
          (forall q, In q before -> Projects.id q <> projectId) /\
          Projects.id p = projectId
    | None => forall p, In p l -> Projects.id p <> projectId
    end).
  { induction l as [|q l IH]; cbn [find]; [intros p []|].
    destruct (String.eqb (Projects.id q) projectId) eqn:E.
    - apply String.eqb_eq in E. exists [], l. repeat split; [intros ? []|exact E].
    - apply String.eqb_neq in E.
      destruct (find _ l) as [p|].
      + destruct IH as (before & after & -> & Hb & Hp).
        exists (q :: before), after. repeat split; [|exact Hp].
        intros x [<-|Hx]; [exact E | now apply Hb].
      + intros p [<-|Hp]; [exact E | now apply IH]. }
  specialize (Hfind (Projects.savedProjects st)).
  destruct (find _ (Projects.savedProjects st)) as [p|].
  - destruct Hfind as (before & after & Hl & Hb & Hp). split.
    + intros Hnone. exfalso. apply (Hnone p); [|exact Hp].
      rewrite Hl. apply in_or_app. right. now left.
    + intros _. exists before, p, after.
      destruct st as [a saved input modal menu].
      cbn [Projects.setApp Projects.setIsBurgerMenuOpen Projects.app
           Projects.savedProjects] in *.
      destruct a. unfold App.clearAllUndoRedoStacks, App.isUndoDisabled,
        App.isRedoDisabled. st_cbn.
      repeat split; assumption.
  - split; [now intros _|].
    intros (p & Hin & Hp). exfalso. now apply (Hfind p).
Qed.

Lemma load_by_identifier_witness :
  let project name html :=
    {| Projects.id := "7"; Projects.name := name; Projects.htmlCode := html;
       Projects.cssCode := ""; Projects.jsCode := ""; Projects.timestamp := "t" |} in
  let st := {| Projects.app :=
                 App.Build_State "<p>hi</p>" "p{}" "go()" App.css App.savedProjects ""
                   App.noResults "" ["x"] [] [] [] [] [] 0;
               Projects.savedProjects := [project "new" "<b>"; project "old" "<i>"];
               Projects.projectNameInput := "";
               Projects.showSaveModal := false;
               Projects.isBurgerMenuOpen := true |} in
  App.htmlCode (Projects.app (fst (Projects.handleLoadProjectFromLocal "7" st)))
  = "<b>".
Proof.
  intros project st.
  pose proof (load_by_identifier "7" st) as H.
  destruct (Projects.handleLoadProjectFromLocal "7" st) as [st' effects] eqn:E.
  destruct H as [_ H].
  destruct H as (before & p & after & Hl & Hb & Hp & _ & Hh & _).
  { exists (project "new" "<b>"). split; [now left | reflexivity]. }
  cbn [fst]. rewrite Hh.
  destruct before as [|q before].
  - injection Hl as <- _. reflexivity.
  - injection Hl as <- _. exfalso. apply (Hb (project "new" "<b>")); [now left | reflexivity].
Defined.

(** X19: a save under a blank name stores nothing, leaves the state as it
    is and only shows the alert about the name.  A save under any other
    name puts one project in front of the list of the state, with the
    identifier given, the name trimmed and the three texts of the
    documents, and leaves the documents alone; when the write of local
    storage returns, the list written is the new list, the dialog is
    closed and the alert names the project; when the write raises, nothing
    is stored and nothing alerted, the dialog stays as it was and the
    handler ends by the exception, so that local storage still holds the
    old list while the state holds the new one. *)
Theorem save_needs_name (now isoTime : string) (write : App.Result unit)
  (st : Projects.State) :
  let (st', effects) :=
    Projects.handleConfirmSaveToLocal now isoTime write st in
  (Js.trim (Projects.projectNameInput st) = "" ->
   st' = st /\ effects = [Projects.alert "Project name cannot be empty."]) /\
  (Js.trim (Projects.projectNameInput st) <> "" ->
   exists p,
     Projects.savedProjects st' = p :: Projects.savedProjects st /\
     Projects.id p = now /\
     Projects.name p = Js.trim (Projects.projectNameInput st) /\
     Projects.htmlCode p = App.htmlCode (Projects.app st) /\
     Projects.cssCode p = App.cssCode (Projects.app st) /\
     Projects.jsCode p = App.jsCode (Projects.app st) /\
     Projects.app st' = Projects.app st /\
     match write with
     | App.Ok _ =>
         Projects.showSaveModal st' = false /\
         effects
         = [Projects.setItem Projects.LOCAL_STORAGE_PROJECTS_KEY
              (p :: Projects.savedProjects st);
            Projects.alert ("Project " ++ Projects.quoted (Projects.name p)
                            ++ " saved locally!")]
     | App.Throw error =>
         Projects.showSaveModal st' = Projects.showSaveModal st /\
         effects = [Projects.uncaught error] /\
         forall stored,
           Projects.storedAfter effects stored = stored
     end).
Proof.
  unfold Projects.handleConfirmSaveToLocal.
  destruct (Js.isEmpty (Js.trim (Projects.projectNameInput st))) eqn:E.
  - split; [now intros _|]. intros H. now rewrite (isEmpty_false _ H) in E.
  - cbv zeta. destruct write as [[]|error];
      (split; [intros H; rewrite H in E; discriminate|]);
      intros _; destruct st as [a saved input modal menu];
      cbn [Projects.setSavedProjects Projects.setShowSaveModal
           Projects.savedProjects Projects.app Projects.projectNameInput
           Projects.showSaveModal];
      eexists; (split; [reflexivity|]); repeat split.
Qed.

Lemma save_needs_name_witness :
  let st := {| Projects.app :=
                 App.Build_State "<p>hi</p>" "p{}" "go()" App.html App.editor ""
                   App.noResults "" [] [] [] [] [] [] 0;
               Projects.savedProjects := [];
               Projects.projectNameInput := "   ";
               Projects.showSaveModal := true;
               Projects.isBurgerMenuOpen := false |} in
  Projects.handleConfirmSaveToLocal "1700000000000" "t" (App.Ok tt) st
  = (st, [Projects.alert "Project name cannot be empty."]).
Proof.
  intros st.
  pose proof (save_needs_name "1700000000000" "t" (App.Ok tt) st) as H.
  destruct (Projects.handleConfirmSaveToLocal "1700000000000" "t" (App.Ok tt) st)
    as [st' effects].
  destruct H as [H _]. destruct (H eq_refl) as [-> ->]. reflexivity.
Defined.

(** X20: the escaped text holds no angle bracket and no quote, whatever
    the text. *)
Theorem escapeHtml_markup_free (text : string) :
  Js.allChars Docs.markupFree (Editor.escapeHtml text) = true.
Proof.
  induction text as [|c text IH]; [reflexivity|].
  rewrite escapeHtml_cons, allChars_app, IH, escapeOne_markupFree.
  reflexivity.
Qed.

(** X21: the escaping works code unit by code unit: the escaping of two
    texts joined is the escapings joined. *)
Theorem escapeHtml_append (a b : string) :
  Editor.escapeHtml (a ++ b) = Editor.escapeHtml a ++ Editor.escapeHtml b.
Proof.
  induction a as [|c a IH]; [reflexivity|].
  change (String c a ++ b) with (String c (a ++ b)).
  now rewrite !escapeHtml_cons, IH, append_assoc.
Qed.

(** X22: the escaping loses nothing: two texts with the same escaping are
    the same text. *)
Theorem escapeHtml_injective (a b : string) :
  Editor.escapeHtml a = Editor.escapeHtml b -> a = b.
Proof.
  revert b. induction a as [|c a IH]; intros [|d b] H.
  - reflexivity.
  - rewrite escapeHtml_cons in H. symmetry in H.
    now apply escapeOne_nonempty in H.
  - rewrite escapeHtml_cons in H. now apply escapeOne_nonempty in H.
  - rewrite !escapeHtml_cons in H. apply escapeOne_split in H.
    destruct H as [-> H]. f_equal. now apply IH.
Qed.

Lemma escapeHtml_injective_witness :
  "a<b" = "a" ++ "<b".
Proof.
  apply (escapeHtml_injective "a<b" ("a" ++ "<b")). vm_compute. reflexivity.
Defined.

(** X23: every line feed of the highlighted text has become a line-break
    marker, and every line-break marker of the markup stands for one:
    whatever the text and the language, the markup holds no line feed, and
    turning its line-break markers back into line feeds gives the text as
    the rule loop left it (the escaped text with its spans); and the empty
    text gives the empty markup. *)
Theorem highlight_line_feeds (text : string) (language : Editor.Language) :
  Js.allChars (fun c => negb (Ascii.eqb c Js.newline))
    (Editor.applySyntaxHighlighting text language) = true /\
  Editor.breaksToNewlines (Editor.applySyntaxHighlighting text language)
  = fold_left Editor.applyRule (Editor.rules language)
      (Editor.escapeHtml text) /\
  Editor.applySyntaxHighlighting "" language = "".
Proof.
  split; [|split; [|reflexivity]];
    unfold Editor.applySyntaxHighlighting; destruct text as [|c text];
    cbn [Js.isEmpty]; cbv zeta.
  - reflexivity.
  - apply breaks_no_newline.
  - symmetry. apply rules_on_empty.
  - apply unbreak_breaks_all.
    apply (noBreakStart_tagged _ _ (rules_tagged _ _)).
    apply noBreakStart_clean, escapeHtml_no_lt.
Qed.

(** ** The editable surface *)

Section SurfaceFacts.
Import Js Surface.

Lemma receive_app (e1 e2 : list Event) (r : Refs) :
  receive (e1 ++ e2) r
  = let (r1, c1) := receive e1 r in
    let (r2, c2) := receive e2 r1 in
    (r2, (c1 ++ c2)%list).
Proof.
  revert r. induction e1 as [|e e1 IH]; intros r; cbn [app receive].
  - now destruct (receive e2 r).
  - destruct (dispatch e r) as [r0 change]. rewrite IH.
    destruct (receive e1 r0) as [r1 c1].
    destruct (receive e2 r1) as [r2 c2].
    now destruct change.
Qed.

Lemma inputs_while_composing (texts : list string) (r : Refs) :
  isComposingRef r = true ->
  receive (map Input texts) r = (r, []).
Proof.
  intros Hc. induction texts as [|t texts IH]; [reflexivity|].
  cbn [map receive dispatch]. unfold handleInput. rewrite Hc. now rewrite IH.
Qed.

Lemma Node_rect' (P : Node -> Prop) :
  (forall nodeValue, P (TextNode nodeValue)) ->
  (forall childNodes, Forall P childNodes -> P (ElementNode childNodes)) ->
  forall node, P node.
Proof.
  intros Htext Helem. fix IH 1. intros [nodeValue|childNodes].
  - apply Htext.
  - apply Helem. induction childNodes as [|child rest IHrest];
      constructor; [apply IH | exact IHrest].
Qed.

Lemma find_app {A : Type} (g : A -> bool) (l1 l2 : list A) :
  find g (l1 ++ l2)
  = match find g l1 with
    | Some x => Some x
    | None => find g l2
    end.
Proof.
  induction l1 as [|x l1 IH]; cbn; [reflexivity|]. now destruct (g x).
Qed.

Lemma find_map_path (g : string -> bool) (i : nat)
  (l : list (list nat * string)) :
  find (fun pv => g (snd pv)) (map (fun pv => (i :: fst pv, snd pv)) l)
  = option_map (fun pv => (i :: fst pv, snd pv))
      (find (fun pv => g (snd pv)) l).
Proof.
  induction l as [|x l IH]; cbn; [reflexivity|]. now destruct (g (snd x)).
Qed.

(** [findTextNode] gives the first text node, in the order of the
    document, whose value includes the text. *)
Lemma findTextNode_first (text : option string) (node : Node) :
  findTextNode node text
  = option_map fst
      (find (fun pv => includes (orEmpty text) (snd pv)) (textNodes node)).
Proof.
  induction node as [nodeValue|childNodes IH] using Node_rect'.
  - cbn. now destruct (includes (orEmpty text) nodeValue).
  - cbn [findTextNode textNodes]. generalize 0 as i.
    induction IH as [|child rest Hchild _ IHrest]; intros i; [reflexivity|].
    rewrite find_app, find_map_path, Hchild.
    destruct (find _ (textNodes child)) as [[path value]|]; [reflexivity|].
    cbn [option_map]. apply IHrest.
Qed.

Lemma findTextNode_sound (text : option string) (node : Node) :
  forall path,
    findTextNode node text = Some path ->
    exists nodeValue,
      nodeAt path node = Some (TextNode nodeValue) /\
      includes (orEmpty text) nodeValue = true.
Proof.
  induction node as [nodeValue|childNodes IH] using Node_rect'; intros path.
  - cbn. destruct (includes (orEmpty text) nodeValue) eqn:E; [|discriminate].
    intros [= <-]. now exists nodeValue.
  - cbn [findTextNode].
    assert (Hloop : forall skipped,
      (fix loop (i : nat) (children : list Node) : option (list nat) :=
         match children with
         | [] => None
         | child :: rest =>
             match findTextNode child text with
             | Some found => Some (i :: found)
             | None => loop (S i) rest
             end
         end) (length skipped) childNodes = Some path ->
      exists nodeValue,
        nodeAt path (ElementNode (skipped ++ childNodes))
        = Some (TextNode nodeValue) /\
        includes (orEmpty text) nodeValue = true).
    { induction IH as [|child rest Hchild _ IHrest]; intros skipped;
        [discriminate|].
      destruct (findTextNode child text) as [found|] eqn:E.
      - intros [= <-]. destruct (Hchild found eq_refl) as (v & Hv & Hi).
        exists v. split; [|exact Hi].
        cbn [nodeAt]. rewrite nth_error_app2 by lia.
        now rewrite Nat.sub_diag.
      - intros H. specialize (IHrest (skipped ++ [child])%list).
        rewrite length_app, Nat.add_1_r in IHrest.
        rewrite <- app_assoc in IHrest. now apply IHrest. }
    apply (Hloop []).
Qed.

End SurfaceFacts.

(** X24: while a composition is going on, the input events pass nothing
    on; the end of the composition passes on its text, once, and makes it
    the text last seen. *)
Theorem composition_is_one_change (texts : list string) (final : string)
  (r : Surface.Refs) :
  Surface.receive
    (Surface.CompositionStart :: map Surface.Input texts
     ++ [Surface.CompositionEnd final])%list r
  = ({| Surface.innerHTML := Surface.innerHTML r;
        Surface.lastValueRef := final;
        Surface.isComposingRef := false |}, [final]).
Proof.
  cbn [Surface.receive Surface.dispatch].
  rewrite receive_app, inputs_while_composing by reflexivity.
  cbn. now destruct final.
Qed.

(** X25: the text that the surface itself has passed on is not rendered
    again by the effect for changes from outside, but it is by the effect
    on the value: after the effects of the render the element holds the
    highlighting of that text. *)
Theorem own_input_is_rendered_once (language : Editor.Language)
  (textContent markup : string) (r : Surface.Refs) :
  Surface.isComposingRef r = false ->
  Surface.innerHTML r = Some markup ->
  let (r1, change) := Surface.handleInput textContent r in
  change = Some textContent /\
  Surface.innerHTML r1 = Some markup /\
  Surface.externalChangeEffect language textContent r1 = r1 /\
  Surface.afterRender language textContent r1
  = {| Surface.innerHTML :=
         Some (Editor.applySyntaxHighlighting textContent language);
       Surface.lastValueRef := textContent;
       Surface.isComposingRef := false |}.
Proof.
  intros Hc Hm. unfold Surface.handleInput. rewrite Hc.
  replace (if Js.isEmpty textContent then "" else textContent)
    with textContent by now destruct textContent.
  cbv zeta.
  unfold Surface.afterRender, Surface.contentEffect,
    Surface.externalChangeEffect, Surface.setEditorContent.
  cbn [Surface.lastValueRef Surface.innerHTML Surface.isComposingRef].
  rewrite String.eqb_refl, Hm. cbn [negb].
  cbn [Surface.lastValueRef Surface.innerHTML Surface.isComposingRef].
  repeat split. all: try now rewrite ?Hm, ?Hc.
Qed.

Lemma own_input_is_rendered_once_witness :
  let r := {| Surface.innerHTML := Some "a";
              Surface.lastValueRef := "a";
              Surface.isComposingRef := false |} in
  let (r1, change) := Surface.handleInput "ab" r in
  change = Some "ab" /\
  Surface.innerHTML r1 = Some "a" /\
  Surface.externalChangeEffect Editor.html "ab" r1 = r1 /\
  Surface.afterRender Editor.html "ab" r1
  = {| Surface.innerHTML := Some (Editor.applySyntaxHighlighting "ab" Editor.html);
       Surface.lastValueRef := "ab";
       Surface.isComposingRef := false |}.
Proof.
  intros r.
  apply (own_input_is_rendered_once Editor.html "ab" "a" r); reflexivity.
Defined.

(** X26: the search for the node of the caret gives the first text node,
    in the order of the document, whose value includes the text looked
    for, and nothing when there is no such node. *)
Theorem findTextNode_is_first_match (text : option string)
  (node : Surface.Node) :
  Surface.findTextNode node text
  = option_map fst
      (find (fun pv => Js.includes (Surface.orEmpty text) (snd pv))
         (Surface.textNodes node)).
Proof. apply findTextNode_first. Qed.

(** X27: when the caret is put back into a text node, that node is a text
    node of the rendered tree with a value that is not empty and includes
    the text of the node in which the selection started, and the offset
    is the old offset cut down to the length of the value. *)
Theorem restored_caret_is_inside (root : Surface.Node)
  (startContainer : option Surface.Container) (startOffset : nat)
  (path : list nat) (offset : nat) :
  Surface.restoreCaret root startContainer startOffset
  = Surface.SetStart path offset ->
  exists textContent nodeValue,
    startContainer = Some (Surface.TextContainer textContent) /\
    Surface.nodeAt path root = Some (Surface.TextNode nodeValue) /\
    nodeValue <> "" /\
    Js.includes textContent nodeValue = true /\
    offset = Nat.min startOffset (String.length nodeValue) /\
    offset <= String.length nodeValue.
Proof.
  unfold Surface.restoreCaret.
  destruct startContainer as [[textContent|]|]; [| |discriminate].
  2:{ cbv zeta. destruct root as [|[|]]; discriminate. }
  cbv zeta.
  destruct (Surface.findTextNode root (Some textContent)) as [found|] eqn:E.
  2:{ destruct root as [|[|]]; discriminate. }
  destruct (findTextNode_sound _ _ _ E) as (v & Hv & Hi).
  rewrite Hv. destruct (Js.isEmpty v) eqn:Ev.
  { destruct root as [|[|]]; discriminate. }
  intros [= <- <-]. exists textContent, v.
  assert (Surface.orEmpty (Some textContent) = textContent)
    by (cbn; now destruct textContent).
  repeat split; try assumption; try congruence.
  - intros ->. discriminate.
  - apply Nat.le_min_r.
Qed.

Lemma restored_caret_is_inside_witness :
  let root := Surface.ElementNode
                [Surface.ElementNode [Surface.TextNode "&lt;p"];
                 Surface.TextNode "hello world"] in
  exists textContent nodeValue,
    Some (Surface.TextContainer "hello") = Some (Surface.TextContainer textContent) /\
    Surface.nodeAt [1] root = Some (Surface.TextNode nodeValue) /\
    nodeValue <> "" /\
    Js.includes textContent nodeValue = true /\
    5 = Nat.min 5 (String.length nodeValue) /\
    5 <= String.length nodeValue.
Proof.
  intros root.
  apply (restored_caret_is_inside root
           (Some (Surface.TextContainer "hello")) 5 [1] 5).
  reflexivity.
Defined.

(** ** Search across tab selections and changes *)

Section SearchAcross.
Import Js App Docs.

Lemma edit_keeps_search (value : string) (st : State) :
  activeAppView (edit value st) = activeAppView st /\
  activeTab (edit value st) = activeTab st /\
  searchTerm (edit value st) = searchTerm st /\
  lastSearchedTerm (edit value st) = lastSearchedTerm st /\
  searchResults (edit value st) = searchResults st.
Proof.
  open_state st. destruct tab; unfold_handlers; rewrite truncate_firstn;
    split_tests; repeat split.
Qed.

Lemma edit_sets_code (value : string) (st : State) :
  codeOf (activeTab st) (edit value st) = value.
Proof.
  destruct (String.eqb value (codeOf (activeTab st) st)) eqn:E.
  - apply String.eqb_eq in E. subst value. now rewrite edit_same.
  - apply String.eqb_neq in E. now destruct (edit_spec value st E) as (_ & H & _).
Qed.

Lemma currentCode_editor (st : State) :
  activeAppView st = editor -> getCurrentCode st = codeOf (activeTab st) st.
Proof. unfold getCurrentCode. intros ->. now destruct (activeTab st). Qed.

Lemma selectTab_fields (tab : ActiveTab) (st : State) :
  activeAppView (selectTab tab st) = activeAppView st /\
  activeTab (selectTab tab st) = tab /\
  codeOf tab (selectTab tab st) = codeOf tab st /\
  searchTerm (selectTab tab st) = searchTerm st /\
  lastSearchedTerm (selectTab tab st) = "".
Proof. destruct st, tab; repeat split. Qed.

End SearchAcross.

(** X28: after the selection of a tab, any search, also one with a
    direction, scans the text of the newly selected document afresh, as
    long as the term is not blank: the stale matches of the document left
    are never navigated. *)
Theorem search_after_tab_selection (fuel : nat)
  (attached : App.ActiveTab -> bool) (navigation : option App.Navigation)
  (tab : App.ActiveTab) (st : App.State) :
  App.activeAppView st = App.editor ->
  attached tab = true ->
  App.codeOf tab st <> "" ->
  Js.trim (App.searchTerm st) <> "" ->
  (String.length (App.codeOf tab st) < fuel)%nat ->
  exists st',
    App.handleSearch fuel attached navigation (App.selectTab tab st) = Some st' /\
    App.indices (App.searchResults st')
    = App.occurrences (Js.toLowerCase (App.searchTerm st))
        (Js.toLowerCase (App.codeOf tab st)) /\
    App.lastSearchedTerm st' = App.searchTerm st.
Proof.
  intros Hview Hatt Hcode Hterm Hfuel.
  destruct (selectTab_fields tab st) as (V & T & C & S & L).
  assert (Hcur : App.getCurrentCode (App.selectTab tab st) = App.codeOf tab st).
  { rewrite currentCode_editor by congruence. now rewrite T. }
  rewrite (search_fresh fuel attached navigation (App.selectTab tab st)).
  - cbv zeta. eexists. split; [reflexivity|].
    rewrite Hcur, S.
    destruct (App.setLastSearchedTerm (App.searchTerm st) (App.selectTab tab st))
      eqn:E.
    split; [reflexivity|].
    apply (f_equal App.lastSearchedTerm) in E.
    destruct (App.selectTab tab st). cbn in E. cbn. congruence.
  - congruence.
  - now rewrite T.
  - now rewrite Hcur.
  - now rewrite S.
  - left. rewrite S, L. intros H. rewrite H in Hterm. now apply Hterm.
  - now rewrite Hcur.
Qed.

Lemma search_after_tab_selection_witness :
  let st := App.Build_State "<p>a{}</p>" "a{} b{}" "" App.html App.editor "{}"
              {| App.indices := [4%Z]; App.currentResultIndex := 0%Z |} "{}"
              [] [] [] [] [] [] 0 in
  exists st',
    App.handleSearch 8 (fun _ => true) (Some App.next)
      (App.selectTab App.css st) = Some st' /\
    App.indices (App.searchResults st') = [1%Z; 5%Z] /\
    App.lastSearchedTerm st' = "{}".
Proof.
  intros st.
  apply (search_after_tab_selection 8 (fun _ => true) (Some App.next)
           App.css st);
    solve [ reflexivity | discriminate | cbn; lia ].
Defined.

(** X29: a next or prev with the term unchanged never scans the text
    again: after a change of the text the offsets navigated are still
    those found before the change. *)
Theorem navigation_keeps_offsets (fuel : nat)
  (attached : App.ActiveTab -> bool) (nav : App.Navigation)
  (value : string) (st : App.State) :
  App.activeAppView st = App.editor ->
  attached (App.activeTab st) = true ->
  value <> "" ->
  Js.trim (App.searchTerm st) <> "" ->
  App.searchTerm st = App.lastSearchedTerm st ->
  exists st',
    App.handleSearch fuel attached (Some nav) (App.edit value st) = Some st' /\
    App.indices (App.searchResults st') = App.indices (App.searchResults st).
Proof.
  intros Hview Hatt Hvalue Hterm Hsame.
  destruct (edit_keeps_search value st) as (V & T & S & L & R).
  assert (Hcur : App.getCurrentCode (App.edit value st) = value).
  { rewrite currentCode_editor by congruence. rewrite T. apply edit_sets_code. }
  unfold App.handleSearch. cbv zeta.
  rewrite search_guards; [| congruence | now rewrite T | now rewrite Hcur].
  rewrite S, L, R, (isEmpty_false _ Hterm), Hsame, String.eqb_refl.
  cbn [negb orb].
  destruct (0 <? length (App.indices (App.searchResults st)))%nat;
    eexists; (split; [reflexivity|]);
    match goal with
    | |- context [App.setSearchResults ?r ?s] =>
        destruct (setSearchResults_view r s) as (_ & _ & _ & _ & _ & ->)
    end; reflexivity.
Qed.

Lemma navigation_keeps_offsets_witness :
  let st := App.Build_State "<div><div>" "" "" App.html App.editor "div"
              {| App.indices := [1%Z; 6%Z]; App.currentResultIndex := 0%Z |}
              "div" [] [] [] [] [] [] 0 in
  exists st',
    App.handleSearch 0 (fun _ => true) (Some App.next)
      (App.edit "<p>no match here</p>" st) = Some st' /\
    App.indices (App.searchResults st') = [1%Z; 6%Z].
Proof.
  intros st.
  apply (navigation_keeps_offsets 0 (fun _ => true) App.next
           "<p>no match here</p>" st);
    solve [ reflexivity | discriminate ].
Defined.
